(** * A shallow embedding of the fork/exec interrupt simulator

    The development follows [interrupts.cpp]: the recursive trace
    interpreter [simulate_trace] and the driver [main].  The header
    [interrupts.hpp] is not part of the sources; the helpers it declares are
    either parameters of the interpreter (the trace parser, the file system,
    the random number generator) or are modelled from the written
    specification (the interrupt prologue, the partition allocator, the
    program registry). *)

From Stdlib Require Import ZArith String List Lia Bool Ascii DecimalString Sorted.
Import ListNotations.
Local Open Scope string_scope.
Local Open Scope list_scope.
Local Open Scope Z_scope.

(** [+] on [std::string]. *)
Infix "+++" := String.append (right associativity, at level 60).

(** ** Machine integers

    [int] is a 32-bit signed integer.  Signed overflow has no defined
    behaviour in C++: a computation that would leave the range is an
    [Undefined] outcome of the model.  [unsigned int] arithmetic wraps. *)

Definition INT_MIN : Z := -2147483648.
Definition INT_MAX : Z := 2147483647.
Definition UINT_MOD : Z := 4294967296.

Definition in_int (z : Z) : bool := (INT_MIN <=? z) && (z <=? INT_MAX).

Definition to_unsigned (z : Z) : Z := z mod UINT_MOD.

Definition to_int (z : Z) : Z :=
  let u := z mod UINT_MOD in if u <=? INT_MAX then u else u - UINT_MOD.

(** [std::to_string] on an integer. *)
Definition to_string (z : Z) : string := NilZero.string_of_int (Z.to_int z).

(** ** Data *)

(** Modelled from the spec: the struct [PCB] is declared in the absent
    header.  The fields are those of the spec's data model, with the names
    that [simulate_trace] uses; the constructor takes them in this order,
    and [main] builds [init] with the sentinel -1 for the parent and for
    the partition. *)
Record PCB : Type := mkPCB {
  PID : Z;
  PPID : Z;
  program_name : string;
  size : Z;
  partition_number : Z
}.

(** Modelled from the spec: the struct [external_file] is declared in the
    absent header; the registry maps a program name to a size. *)
Record external_file : Type := mkFile {
  file_name : string;
  file_size : Z
}.

(** One line of the execution log, ["<time>, <duration>, <label>\n"]. *)
Record entry : Type := mkEntry {
  at_time : Z;
  duration : Z;
  label : string
}.

Definition render_entry (e : entry) : string :=
  to_string (at_time e) +++ ", " +++ to_string (duration e) +++ ", " +++ label e
  +++ String (ascii_of_nat 10) "".

Definition render_execution (l : list entry) : string :=
  fold_right (fun e s => render_entry e +++ s) "" l.

(** One block of the status log: the header line, then [print_PCB] applied
    to a PCB and a wait queue. *)
Inductive trace_desc : Type :=
| FORK_desc (duration_intr : Z)
| EXEC_desc (prog : string) (duration_intr : Z).

Record snapshot : Type := mkSnapshot {
  snap_time : Z;
  snap_trace : trace_desc;
  snap_pcb : PCB;
  snap_queue : list PCB
}.

Definition render_header (s : snapshot) : string :=
  "time: " +++ to_string (snap_time s) +++ "; current trace: " +++
  match snap_trace s with
  | FORK_desc d => "FORK, " +++ to_string d
  | EXEC_desc p d => "EXEC " +++ p +++ ", " +++ to_string d
  end +++ String (ascii_of_nat 10) "".

(** ** The memory pool *)

(** Modelled from the spec: the partition table is declared in the absent
    header.  The spec (Memory Partition Pool) gives an ordered set of
    partitions, each with a fixed capacity and an occupancy flag. *)
Record partition : Type := mkPartition {
  part_id : Z;
  capacity : Z;
  occupied : bool
}.

(** The sentinel of an unassigned [partition_number]. *)
Definition NO_PARTITION : Z := -1.

(** Modelled from the spec: the choice made by [allocate_memory], which is
    declared in the absent header: among the free partitions whose capacity
    is at least [need], one of the smallest capacity. *)
Fixpoint best_fit (need : Z) (pool : list partition) (best : option partition)
  : option partition :=
  match pool with
  | [] => best
  | p :: rest =>
      if negb (occupied p) && (need <=? capacity p) then
        match best with
        | Some b =>
            if capacity p <? capacity b then best_fit need rest (Some p)
            else best_fit need rest best
        | None => best_fit need rest (Some p)
        end
      else best_fit need rest best
  end.

(** Sets the occupancy flag of the partition [id]. *)
Definition set_occupied (id : Z) (flag : bool) (pool : list partition)
  : list partition :=
  map (fun p => if part_id p =? id
                then mkPartition (part_id p) (capacity p) flag
                else p) pool.

(** Modelled from the spec: [allocate_memory] is declared in the absent
    header.  The spec gives [allocate(pcb, pool) -> bool]: best fit among
    the free partitions that are large enough, and no mutation when none
    fits. *)
Definition allocate_memory (pcb : PCB) (pool : list partition)
  : bool * PCB * list partition :=
  match best_fit (size pcb) pool None with
  | Some p =>
      (true,
       mkPCB (PID pcb) (PPID pcb) (program_name pcb) (size pcb) (part_id p),
       set_occupied (part_id p) true pool)
  | None => (false, pcb, pool)
  end.

(** Modelled from the spec: [free_memory] is declared in the absent header.
    The spec gives [release(pcb, pool)], which frees the partition of the
    PCB and resets the field to the sentinel; nothing happens on a PCB that
    holds the sentinel. *)
Definition free_memory (pcb : PCB) (pool : list partition)
  : PCB * list partition :=
  if partition_number pcb =? NO_PARTITION then (pcb, pool)
  else (mkPCB (PID pcb) (PPID pcb) (program_name pcb) (size pcb) NO_PARTITION,
        set_occupied (partition_number pcb) false pool).

(** Modelled from the spec: [get_size] is declared in the absent header; the
    registry maps a program name to its size, and a name that is absent is
    the error [UnknownProgram]. *)
Fixpoint get_size (name : string) (files : list external_file) : option Z :=
  match files with
  | [] => None
  | f :: rest => if String.eqb (file_name f) name then Some (file_size f)
                 else get_size name rest
  end.

(** ** State of a call and of the process

    [frame] holds the locals of one call of [simulate_trace]; [world] holds
    what outlives a call: the global [next_pid], the partition table, the
    number of calls made to [rand] and what was written to [std::cerr]. *)

Record frame : Type := mkFrame {
  execution : list entry;
  system_status : list snapshot;
  current_time : Z;
  current : PCB;
  wait_queue : list PCB
}.

Record world : Type := mkWorld {
  next_pid : Z;
  memory : list partition;
  rand_calls : nat;
  cerr : list string
}.

(** The tuple returned by [simulate_trace]. *)
Definition result : Type := (list entry * list snapshot * Z)%type.

Definition init_frame (time : Z) (current : PCB) (wait_queue : list PCB)
  : frame :=
  mkFrame [] [] time current wait_queue.

Definition finish (f : frame) : result :=
  (execution f, system_status f, current_time f).

(** ** Outcomes of a call

    A call returns ([Done]), or leaves through an exception raised by a
    helper ([Fatal]; the interpreter has no handler, so the exception
    crosses every enclosing call), or has no defined behaviour
    ([Undefined]: signed overflow, an unchecked read past the end of a
    vector). *)

Inductive error : Type :=
| ParseError
| OutOfRangeVector
| UnknownProgram.

Inductive outcome (A : Type) : Type :=
| Done (a : A)
| Fatal (e : error)
| Undefined.

Arguments Done {A} a.
Arguments Fatal {A} e.
Arguments Undefined {A}.

Definition bind {A B : Type} (m : outcome A) (k : A -> outcome B) : outcome B :=
  match m with
  | Done a => k a
  | Fatal e => Fatal e
  | Undefined => Undefined
  end.

Notation "x <- m ;; k" := (bind m (fun x => k))
  (at level 61, m at next level, right associativity).
Notation "' p <- m ;; k" := (bind m (fun x => match x with p => k end))
  (at level 61, p pattern, m at next level, right associativity).

Definition raise_if_none {A : Type} (e : error) (o : option A) : outcome A :=
  match o with
  | Some a => Done a
  | None => Fatal e
  end.

(** [a + b] on [int]. *)
Definition int_add (a b : Z) : outcome Z :=
  if in_int (a + b) then Done (a + b) else Undefined.

(** [v[k]] on a [std::vector<int>]: no bounds check. *)
Definition vector_index (v : list Z) (k : Z) : outcome Z :=
  if k <? 0 then Undefined
  else match nth_error v (Z.to_nat k) with
       | Some x => Done x
       | None => Undefined
       end.

(** ** The interrupt prologue *)

(** Modelled from the spec: [intr_boilerplate] is declared in the absent
    header.  The spec (Interrupt Prologue Simulator) gives three entries,
    of cost 1, [context_save_time] and 1, the vector being read from the
    table, and the error [OutOfRangeVector] for an index outside it. *)
Definition intr_boilerplate (current_time intr_num context_save_time : Z)
  (vectors : list string) : outcome (list entry * Z) :=
  if intr_num <? 0 then Fatal OutOfRangeVector
  else
    vector <- raise_if_none OutOfRangeVector
                (nth_error vectors (Z.to_nat intr_num)) ;;
    t1 <- int_add current_time 1 ;;
    t2 <- int_add t1 context_save_time ;;
    t3 <- int_add t2 1 ;;
    Done ([ mkEntry current_time 1 "switch to kernel mode";
            mkEntry t1 context_save_time "context saved";
            mkEntry t2 1 ("find vector " +++ to_string intr_num +++
                          " in memory position " +++ vector) ],
          t3).

(** [execution += ...; current_time += d]. *)
Definition log_event (lbl : string) (d : Z) (f : frame) : outcome frame :=
  t <- int_add (current_time f) d ;;
  Done (mkFrame (execution f ++ [mkEntry (current_time f) d lbl])
          (system_status f) t (current f) (wait_queue f)).

(** [execution += ... ", 0, " ...] with the clock left as it is. *)
Definition note (lbl : string) (f : frame) : frame :=
  mkFrame (execution f ++ [mkEntry (current_time f) 0 lbl])
    (system_status f) (current_time f) (current f) (wait_queue f).

(** [execution += child_exec; system_status += child_status;
    current_time = new_time]. *)
Definition splice (f : frame) (r : result) : frame :=
  let '(child_exec, child_status, new_time) := r in
  mkFrame (execution f ++ child_exec) (system_status f ++ child_status)
    new_time (current f) (wait_queue f).

(** What is known of a call of the interpreter after a number of loop
    iterations: it has returned its tuple, or it is still running, and the
    logs, the clock and the process state at the point reached are given. *)
Inductive progress : Type :=
| Returned (p : result * world)
| Running (p : result * world).

(** A recursive call made from the frame [f].  When the callee is still
    running so is the caller, and the point reached is seen from the
    caller, whose logs come before the callee's. *)
Definition call (f : frame) (m : outcome progress)
  (k : result * world -> outcome progress) : outcome progress :=
  match m with
  | Done (Returned p) => k p
  | Done (Running (r, w)) => Done (Running (finish (splice f r), w))
  | Fatal e => Fatal e
  | Undefined => Undefined
  end.

(** The logs, clock and process state shown by a call, returned or not. *)
Definition observed (m : outcome progress) : option (result * world) :=
  match m with
  | Done (Returned p) => Some p
  | Done (Running p) => Some p
  | _ => None
  end.

(** ** The trace parser of the specification *)

(** The text before the first comma, and the text after it if there is a
    comma. *)
Fixpoint split_comma (s : string) : string * option string :=
  match s with
  | EmptyString => ("", None)
  | String c rest =>
      if Ascii.eqb c "," then ("", Some rest)
      else let '(tag, operand) := split_comma rest in (String c tag, operand)
  end.

(** The eight activity tags. *)
Definition activity_tags : list string :=
  ["CPU"; "SYSCALL"; "END_IO"; "FORK"; "EXEC"; "IF_CHILD"; "IF_PARENT";
   "ENDIF"].

Definition known_tag (tag : string) : bool :=
  existsb (String.eqb tag) activity_tags.

(** A numeric field: decimal digits, with a value that an [int] holds. *)
Definition parse_numeric (field : string) : option Z :=
  match NilZero.uint_of_string field with
  | Some u => if in_int (Z.of_uint u) then Some (Z.of_uint u) else None
  | None => None
  end.

(** Modelled from the spec: [parse_trace] is declared in the absent header.
    The spec (Trace Parser) splits a line at the comma into an activity tag
    and at most one operand; a numeric operand is the numeric operand, any
    other operand is the program name of an EXEC, an absent operand leaves
    the defaults; an unrecognized tag or a malformed numeric field is a
    [ParseError], which is [None] here. *)
Definition parse_trace_spec (line : string) : option (string * Z * string) :=
  let '(tag, operand) := split_comma line in
  if known_tag tag then
    match operand with
    | None => Some (tag, 0, "")
    | Some field =>
        match parse_numeric field with
        | Some n => Some (tag, n, "")
        | None => if String.eqb tag "EXEC" then Some (tag, 0, field) else None
        end
    end
  else None.

(** A parser that splits a line in the same way and accepts every tag: an
    instance of the parameter [parse_trace] with which the interpreter
    meets tags that it does not know. *)
Definition parse_trace_any (line : string) : option (string * Z * string) :=
  let '(tag, operand) := split_comma line in
  match operand with
  | None => Some (tag, 0, "")
  | Some field =>
      match parse_numeric field with
      | Some n => Some (tag, n, "")
      | None => Some (tag, 0, field)
      end
  end.

(** A parser that reads a sign: the parser of the specification, with the
    line [CPU,-5] read as a CPU burst of -5. *)
Definition parse_trace_signed (line : string)
  : option (string * Z * string) :=
  if String.eqb line "CPU,-5" then Some ("CPU", -5, "")
  else parse_trace_spec line.

(** An environment without program files and with a constant [rand]. *)
Definition no_files : string -> option (list string) := fun _ => None.
Definition rand_zero : nat -> N := fun _ => 0%N.

(** The execution log of Scenario A. *)
Definition scenario_A_log : list entry :=
  [ mkEntry 0 5 "CPU Burst";
    mkEntry 5 1 "switch to kernel mode";
    mkEntry 6 10 "context saved";
    mkEntry 16 1 "find vector 0 in memory position 0x10";
    mkEntry 17 20 "SYSCALL ISR";
    mkEntry 37 1 "IRET" ].


(** ** Properties of the logs *)

(** Every entry starts when the one before it ends: the log leads from the
    clock [t] to the clock [t']. *)
Fixpoint chained (t : Z) (l : list entry) (t' : Z) : Prop :=
  match l with
  | [] => t = t'
  | e :: rest => at_time e = t /\ chained (t + duration e) rest t'
  end.

(** The pids of the PCBs created by FORK, in the order of their creation:
    every FORK writes one status block, which shows the child. *)
Fixpoint fork_pids (s : list snapshot) : list Z :=
  match s with
  | [] => []
  | x :: rest =>
      match snap_trace x with
      | FORK_desc _ => PID (snap_pcb x) :: fork_pids rest
      | EXEC_desc _ _ => fork_pids rest
      end
  end.

Fixpoint consecutive (a : Z) (n : nat) : list Z :=
  match n with
  | O => []
  | S m => a :: consecutive (a + 1) m
  end.

(** In the status block of a FORK the last PCB of the wait queue is the
    parent, and the child shown holds the parent's partition. *)
Definition shares_partition (x : snapshot) : Prop :=
  match snap_trace x with
  | FORK_desc _ =>
      exists queue parent,
        snap_queue x = queue ++ [parent] /\
        PPID (snap_pcb x) = PID parent /\
        partition_number (snap_pcb x) = partition_number parent
  | EXEC_desc _ _ => True
  end.

(** ** Sample configurations *)

Definition sample_pool : list partition :=
  [ mkPartition 1 40 false; mkPartition 2 25 false; mkPartition 3 15 false;
    mkPartition 4 10 false; mkPartition 5 8 false; mkPartition 6 2 false ].

Definition sample_vectors : list string :=
  ["0x01E3"; "0x029C"; "0x0695"; "0x042B"].

(** The files of a machine that has the trace of one program, [big]. *)
Definition big_program_files (name : string) : option (list string) :=
  if String.eqb name "big.txt" then Some ["CPU,7"] else None.

(** The PCB of [init] once [main] has allocated its partition in
    [sample_pool], and the state of the process at that point. *)
Definition sample_init : PCB := mkPCB 0 (-1) "init" 1 6.

Definition sample_world : world :=
  mkWorld 1 (set_occupied 6 true sample_pool) 0 [].

(** Scenario B: a FORK with a child branch of one CPU burst. *)
Definition scenario_B_trace : list string :=
  ["FORK,3"; "IF_CHILD"; "CPU,2"; "IF_PARENT"; "ENDIF"].

Definition scenario_B_log : list entry :=
  [ mkEntry 0 1 "switch to kernel mode";
    mkEntry 1 10 "context saved";
    mkEntry 11 1 "find vector 2 in memory position 0x0695";
    mkEntry 12 3 "cloning the PCB";
    mkEntry 15 0 "scheduler called";
    mkEntry 15 1 "IRET";
    mkEntry 16 2 "CPU Burst" ].

Definition scenario_B_status : list snapshot :=
  [ mkSnapshot 16 (FORK_desc 3) (mkPCB 1 0 "init" 1 6) [sample_init] ].

(** A trace whose last line is a FORK that no IF_PARENT follows, and whose
    second FORK is reached after the EXEC of the first child branch. *)
Definition fork_after_exec_trace : list string :=
  ["FORK,1"; "IF_CHILD"; "EXEC,prog"; "IF_PARENT"; "ENDIF"; "FORK,2"].

(** The locals and the process state when the EXEC of [big], of size 1, run
    from the clock 0 by [sample_init] in [sample_world], has written its
    status block. *)
Definition exec_big_frame : frame :=
  mkFrame
    [ mkEntry 0 1 "switch to kernel mode";
      mkEntry 1 10 "context saved";
      mkEntry 11 1 "find vector 3 in memory position 0x042B";
      mkEntry 12 0 "Program is 1 Mb large";
      mkEntry 12 15 "loading program into memory";
      mkEntry 27 1 "marking partition as occupied";
      mkEntry 28 1 "updating PCB";
      mkEntry 29 0 "scheduler called";
      mkEntry 29 1 "IRET" ]
    [ mkSnapshot 30 (EXEC_desc "big" 0) (mkPCB 0 (-1) "big" 1 6) [] ]
    30 (mkPCB 0 (-1) "big" 1 6) [].

Definition exec_big_world : world :=
  mkWorld 1 (set_occupied 6 true sample_pool) 2 [].

(** * The interpreter *)

Section Interpreter.

(** [parse_trace] is declared in the absent header.  [None] stands for an
    exception leaving the parser. *)
Variable parse_trace : string -> option (string * Z * string).

(** The files that [std::ifstream] can open, as their lines; [None] when
    the file cannot be opened. *)
Variable open_file : string -> option (list string).

(** The value returned by the [k]-th call of [rand]. *)
Variable rand : nat -> N.

Variable vectors : list string.
Variable delays : list Z.
Variable external_files : list external_file.

Definition parse (trace : string) : outcome (string * Z * string) :=
  raise_if_none ParseError (parse_trace trace).

(** [auto [intr, time] = intr_boilerplate(current_time, n, 10, vectors);
    execution += intr; current_time = time]. *)
Definition enter_interrupt (intr_num : Z) (f : frame) : outcome frame :=
  '(intr, time) <- intr_boilerplate (current_time f) intr_num 10 vectors ;;
  Done (mkFrame (execution f ++ intr) (system_status f) time (current f)
          (wait_queue f)).

(** The SYSCALL and END_IO branches, which differ in the label. *)
Definition service (lbl : string) (duration_intr : Z) (f : frame)
  : outcome frame :=
  f1 <- enter_interrupt duration_intr f ;;
  delay <- vector_index delays duration_intr ;;
  f2 <- log_event lbl delay f1 ;;
  log_event "IRET" 1 f2.

(** The FORK branch up to the status snapshot. *)
Definition fork_clone (duration_intr : Z) (f : frame) (w : world)
  : outcome (frame * world * PCB) :=
  f1 <- enter_interrupt 2 f ;;
  f2 <- log_event "cloning the PCB" duration_intr f1 ;;
  f3 <- log_event "IRET" 1 (note "scheduler called" f2) ;;
  pid' <- int_add (next_pid w) 1 ;;
  let child := mkPCB (next_pid w) (PID (current f3))
                 (program_name (current f3)) (size (current f3))
                 (partition_number (current f3)) in
  let queue := wait_queue f3 ++ [current f3] in
  Done (mkFrame (execution f3)
          (system_status f3 ++
           [mkSnapshot (current_time f3) (FORK_desc duration_intr) child
              queue])
          (current_time f3) (current f3) queue,
        mkWorld pid' (memory w) (rand_calls w) (cerr w),
        child).

(** The scan that extracts the child's lines: the loop over [j], run on
    the lines from index [j] on, with the loop's four variables. *)
Fixpoint carve (lines : list string) (j : nat) (skip exec_flag : bool)
  (parent_index : nat) (child_trace : list string) {struct lines}
  : outcome (list string * nat) :=
  match lines with
  | [] => Done (child_trace, parent_index)
  | line :: rest =>
      '(_activity, _duration, _pn) <- parse line ;;
      if skip && String.eqb _activity "IF_CHILD" then
        carve rest (S j) false exec_flag parent_index child_trace
      else if String.eqb _activity "IF_PARENT" then
        if exec_flag then Done (child_trace, j)
        else carve rest (S j) true exec_flag j child_trace
      else if skip && String.eqb _activity "ENDIF" then
        carve rest (S j) false exec_flag parent_index child_trace
      else if negb skip && String.eqb _activity "EXEC" then
        carve rest (S j) true true parent_index (child_trace ++ [line])
      else
        carve rest (S j) skip exec_flag parent_index
          (if skip then child_trace else child_trace ++ [line])
  end.

Definition child_section (trace_file : list string) (i : nat)
  : outcome (list string * nat) :=
  carve (skipn (S i) trace_file) (S i) true false 0%nat [].

(** The EXEC branch up to the status snapshot. *)
Definition exec_replace (duration_intr : Z) (prog : string) (f : frame)
  (w : world) : outcome (frame * world) :=
  f1 <- enter_interrupt 3 f ;;
  sz <- raise_if_none UnknownProgram (get_size prog external_files) ;;
  let program_size := to_unsigned sz in
  f2 <- log_event ("Program is " +++ to_string program_size +++ " Mb large")
          duration_intr f1 ;;
  let load_time := to_int (program_size * 15) in
  f3 <- log_event "loading program into memory" load_time f2 ;;
  let '(freed, pool1) := free_memory (current f3) (memory w) in
  let updated := mkPCB (PID freed) (PPID freed) prog program_size
                   (partition_number freed) in
  let '(ok, current', pool2) := allocate_memory updated pool1 in
  let err := if ok then cerr w
             else cerr w ++ ["ERROR! Memory allocation failed for " +++ prog]
  in
  let mark_time := Z.of_N (rand (rand_calls w)) mod 10 + 1 in
  f4 <- log_event "marking partition as occupied" mark_time f3 ;;
  let update_time := Z.of_N (rand (S (rand_calls w))) mod 10 + 1 in
  f5 <- log_event "updating PCB" update_time f4 ;;
  f6 <- log_event "IRET" 1 (note "scheduler called" f5) ;;
  Done (mkFrame (execution f6)
          (system_status f6 ++
           [mkSnapshot (current_time f6) (EXEC_desc prog duration_intr)
              current' (wait_queue f6)])
          (current_time f6) current' (wait_queue f6),
        mkWorld (next_pid w) pool2 (S (S (rand_calls w))) err).

(** The activities that have a branch in the loop. *)
Definition handled (activity : string) : bool :=
  existsb (String.eqb activity) ["CPU"; "SYSCALL"; "END_IO"; "FORK"; "EXEC"].

(** The loop of [simulate_trace] from index [i] on.  Every iteration
    takes one unit of fuel, and so does every recursive call. *)
Fixpoint run (fuel : nat) (trace_file : list string) (i : nat) (f : frame)
  (w : world) {struct fuel} : outcome progress :=
  match fuel with
  | O => Done (Running (finish f, w))
  | S fuel' =>
      match nth_error trace_file i with
      | None => Done (Returned (finish f, w))
      | Some trace =>
          '(activity, duration_intr, prog) <- parse trace ;;
          if String.eqb activity "CPU" then
            f1 <- log_event "CPU Burst" duration_intr f ;;
            run fuel' trace_file (S i) f1 w
          else if String.eqb activity "SYSCALL" then
            f1 <- service "SYSCALL ISR" duration_intr f ;;
            run fuel' trace_file (S i) f1 w
          else if String.eqb activity "END_IO" then
            f1 <- service "ENDIO ISR" duration_intr f ;;
            run fuel' trace_file (S i) f1 w
          else if String.eqb activity "FORK" then
            '(f1, w1, child) <- fork_clone duration_intr f w ;;
            '(child_trace, parent_index) <- child_section trace_file i ;;
            call f1
              (run fuel' child_trace 0
                 (init_frame (current_time f1) child []) w1)
              (fun '(r, w2) =>
                 let f2 := splice f1 r in
                 let '(_, pool) := free_memory child (memory w2) in
                 run fuel' trace_file (S parent_index) f2
                   (mkWorld (next_pid w2) pool (rand_calls w2) (cerr w2)))
          else if String.eqb activity "EXEC" then
            '(f1, w1) <- exec_replace duration_intr prog f w ;;
            match open_file (prog +++ ".txt") with
            | None =>
                Done (Returned
                        (finish f1,
                         mkWorld (next_pid w1) (memory w1) (rand_calls w1)
                           (cerr w1 ++
                            ["ERROR! Could not open " +++ prog +++ ".txt"])))
            | Some exec_traces =>
                call f1
                  (run fuel' exec_traces 0
                     (init_frame (current_time f1) (current f1)
                        (wait_queue f1)) w1)
                  (fun '(r, w2) => Done (Returned (finish (splice f1 r), w2)))
            end
          else run fuel' trace_file (S i) f w
      end
  end.

Definition simulate_trace (fuel : nat) (trace_file : list string)
  (time : Z) (current : PCB) (wait_queue : list PCB) (w : world)
  : outcome progress :=
  run fuel trace_file 0 (init_frame time current wait_queue) w.

(** [main], from the allocation of [init] to the call of the interpreter:
    [None] is the early [return 1]. *)
Definition main (fuel : nat) (pool : list partition)
  (trace_file : list string) : option (outcome progress) :=
  let '(ok, init, pool') :=
    allocate_memory (mkPCB 0 (-1) "init" 1 (-1)) pool in
  if ok then
    Some (simulate_trace fuel trace_file 0 init [] (mkWorld 1 pool' 0 []))
  else None.


(** ** Points reached by the loop

    [reach trace_file i f w r w'] holds when the loop, entered at index [i]
    with the locals [f] and the process state [w], can be at a point where
    the caller would see the logs and clock [r] and the process state [w']:
    the head of an iteration, a point inside a recursive call, or the
    return.  The relation follows the branches of [run]; a recursive call
    may be left at any point it reaches, so the relation contains every
    point of every run. *)
Inductive reach
  : list string -> nat -> frame -> world -> result -> world -> Prop :=
| reach_here : forall trace_file i f w,
    reach trace_file i f w (finish f) w
| reach_cpu : forall trace_file i f w trace d p f1 r w',
    nth_error trace_file i = Some trace ->
    parse_trace trace = Some ("CPU", d, p) ->
    log_event "CPU Burst" d f = Done f1 ->
    reach trace_file (S i) f1 w r w' ->
    reach trace_file i f w r w'
| reach_service : forall trace_file i f w trace a d p lbl f1 r w',
    nth_error trace_file i = Some trace ->
    parse_trace trace = Some (a, d, p) ->
    (a = "SYSCALL" /\ lbl = "SYSCALL ISR") \/
    (a = "END_IO" /\ lbl = "ENDIO ISR") ->
    service lbl d f = Done f1 ->
    reach trace_file (S i) f1 w r w' ->
    reach trace_file i f w r w'
| reach_other : forall trace_file i f w trace a d p r w',
    nth_error trace_file i = Some trace ->
    parse_trace trace = Some (a, d, p) ->
    handled a = false ->
    reach trace_file (S i) f w r w' ->
    reach trace_file i f w r w'
| reach_fork_child : forall trace_file i f w trace d p f1 w1 child
                            child_trace parent_index r w2,
    nth_error trace_file i = Some trace ->
    parse_trace trace = Some ("FORK", d, p) ->
    fork_clone d f w = Done (f1, w1, child) ->
    child_section trace_file i = Done (child_trace, parent_index) ->
    reach child_trace 0 (init_frame (current_time f1) child []) w1 r w2 ->
    reach trace_file i f w (finish (splice f1 r)) w2
| reach_fork_parent : forall trace_file i f w trace d p f1 w1 child
                             child_trace parent_index rc w2 r w',
    nth_error trace_file i = Some trace ->
    parse_trace trace = Some ("FORK", d, p) ->
    fork_clone d f w = Done (f1, w1, child) ->
    child_section trace_file i = Done (child_trace, parent_index) ->
    reach child_trace 0 (init_frame (current_time f1) child []) w1 rc w2 ->
    reach trace_file (S parent_index) (splice f1 rc)
      (mkWorld (next_pid w2) (snd (free_memory child (memory w2)))
         (rand_calls w2) (cerr w2)) r w' ->
    reach trace_file i f w r w'
| reach_exec_no_file : forall trace_file i f w trace d p f1 w1,
    nth_error trace_file i = Some trace ->
    parse_trace trace = Some ("EXEC", d, p) ->
    exec_replace d p f w = Done (f1, w1) ->
    open_file (p +++ ".txt") = None ->
    reach trace_file i f w (finish f1)
      (mkWorld (next_pid w1) (memory w1) (rand_calls w1)
         (cerr w1 ++ ["ERROR! Could not open " +++ p +++ ".txt"]))
| reach_exec : forall trace_file i f w trace d p f1 w1 exec_traces r w2,
    nth_error trace_file i = Some trace ->
    parse_trace trace = Some ("EXEC", d, p) ->
    exec_replace d p f w = Done (f1, w1) ->
    open_file (p +++ ".txt") = Some exec_traces ->
    reach exec_traces 0
      (init_frame (current_time f1) (current f1) (wait_queue f1)) w1 r w2 ->
    reach trace_file i f w (finish (splice f1 r)) w2.

(** Inputs whose durations cannot be negative: the numeric operands of the
    trace lines, the ISR delays, and the load times [size * 15], which must
    fit in an [int]. *)
Definition sane_inputs : Prop :=
  (forall trace a d p, parse_trace trace = Some (a, d, p) -> 0 <= d) /\
  Forall (fun d => 0 <= d) delays /\
  Forall (fun x => to_unsigned (file_size x) * 15 <= INT_MAX) external_files.

(** A log that leads from the clock [t0] to the clock [t], and whose
    durations are not negative when the inputs are sane. *)
Definition timed (t0 : Z) (e : list entry) (t : Z) : Prop :=
  chained t0 e t /\ (sane_inputs -> Forall (fun x => 0 <= duration x) e).

(** Two frames that differ in the execution log and the clock only. *)
Definition same_process (f f1 : frame) : Prop :=
  system_status f1 = system_status f /\ current f1 = current f /\
  wait_queue f1 = wait_queue f.

(** The line is parsed and its activity is [tag]. *)
Definition is_tag (tag : string) (trace : string) : bool :=
  match parse_trace trace with
  | Some (activity, _, _) => String.eqb activity tag
  | None => false
  end.

(** The operand [k] is an index of the table [v]. *)
Definition in_table {A : Type} (v : list A) (k : Z) : bool :=
  (0 <=? k) && (k <? Z.of_nat (length v)).

(** The call has come to an end: it returned, raised an exception or had
    no defined behaviour; more iterations cannot change the outcome. *)
Definition settled (m : outcome progress) : Prop :=
  match m with
  | Done (Running _) => False
  | _ => True
  end.

(** ** Further notions on traces and logs *)

(** A line that is neither a FORK nor an EXEC: the loop handles it without
    a recursive call. *)
Definition plain_line (trace : string) : bool :=
  negb (is_tag "FORK" trace) && negb (is_tag "EXEC" trace).

(** A line that is parsed and that the scan of a FORK treats as any other
    line: its activity is none of IF_CHILD, IF_PARENT, ENDIF and EXEC. *)
Definition ordinary_line (trace : string) : bool :=
  match parse_trace trace with
  | Some (activity, _, _) =>
      negb (String.eqb activity "IF_CHILD") &&
      negb (String.eqb activity "IF_PARENT") &&
      negb (String.eqb activity "ENDIF") &&
      negb (String.eqb activity "EXEC")
  | None => false
  end.

(** A line that is parsed and is not an EXEC. *)
Definition parsed_not_exec (trace : string) : bool :=
  match parse_trace trace with
  | Some (activity, _, _) => negb (String.eqb activity "EXEC")
  | None => false
  end.

(** [l1] is [l2] with some elements left out, the order being kept. *)
Inductive subseq {A : Type} : list A -> list A -> Prop :=
| subseq_nil : subseq [] []
| subseq_skip : forall x l1 l2, subseq l1 l2 -> subseq l1 (x :: l2)
| subseq_take : forall x l1 l2, subseq l1 l2 -> subseq (x :: l1) (x :: l2).


(** The number of status blocks written by EXEC. *)
Fixpoint exec_blocks (s : list snapshot) : nat :=
  match s with
  | [] => 0%nat
  | x :: rest =>
      match snap_trace x with
      | FORK_desc _ => exec_blocks rest
      | EXEC_desc _ _ => S (exec_blocks rest)
      end
  end.

(** The wait queue shown by a status block holds PCBs of one process only:
    the parent of the child shown by a FORK, the process shown by an
    EXEC. *)
Definition queue_of_one_process (x : snapshot) : Prop :=
  match snap_trace x with
  | FORK_desc _ =>
      Forall (fun q => PID q = PPID (snap_pcb x)) (snap_queue x)
  | EXEC_desc _ _ =>
      Forall (fun q => PID q = PID (snap_pcb x)) (snap_queue x)
  end.

(** Every EXEC block of the status log [s] shows a pid that is in [known]
    or is the pid of a child shown by a FORK block before it. *)
Fixpoint exec_pids_known (known : list Z) (s : list snapshot) : Prop :=
  match s with
  | [] => True
  | x :: rest =>
      match snap_trace x with
      | FORK_desc _ => exec_pids_known (PID (snap_pcb x) :: known) rest
      | EXEC_desc _ _ =>
          In (PID (snap_pcb x)) known /\ exec_pids_known known rest
      end
  end.


(** The lines that a call on [trace_file] can come to interpret: the lines
    of the trace, among which the scan of a FORK takes the lines of a
    child, and the lines of the program of an EXEC line that is one of
    them. *)
Inductive interpreted_line (trace_file : list string) : string -> Prop :=
| line_of_trace : forall line,
    In line trace_file -> interpreted_line trace_file line
| line_of_program : forall exec_line d p lines line,
    interpreted_line trace_file exec_line ->
    parse_trace exec_line = Some ("EXEC", d, p) ->
    open_file (p +++ ".txt") = Some lines ->
    In line lines ->
    interpreted_line trace_file line.

(** A line that gives no negative duration: the operand of a CPU, FORK or
    EXEC line is not negative, the ISR delay of the device of a SYSCALL or
    END_IO line is not negative, and the load time [size * 15] of the
    program of an EXEC line fits in an [int]. *)
Definition sane_line (trace : string) : Prop :=
  forall a d p,
    parse_trace trace = Some (a, d, p) ->
    (a = "CPU" \/ a = "FORK" \/ a = "EXEC" -> 0 <= d) /\
    (a = "SYSCALL" \/ a = "END_IO" ->
     forall x, nth_error delays (Z.to_nat d) = Some x -> 0 <= x) /\
    (a = "EXEC" ->
     forall sz, get_size p external_files = Some sz ->
                to_unsigned sz * 15 <= INT_MAX).

(** A run on [trace_file] meets no negative duration. *)
Definition sane_run (trace_file : list string) : Prop :=
  forall line, interpreted_line trace_file line -> sane_line line.

(** * Facts about the interpreter *)

Ltac bind_done H :=
  match type of H with
  | context [bind ?m _] =>
      let E := fresh "E" in
      destruct m eqn:E; cbn [bind observed] in H; try discriminate H
  end.

Lemma int_add_done (a b t : Z) : int_add a b = Done t -> t = a + b.
Proof.
  unfold int_add. destruct (in_int (a + b)); congruence.
Qed.

Lemma log_event_done (lbl : string) (d : Z) (f f1 : frame) :
  log_event lbl d f = Done f1 ->
  f1 = mkFrame (execution f ++ [mkEntry (current_time f) d lbl])
         (system_status f) (current_time f + d) (current f) (wait_queue f).
Proof.
  unfold log_event. intros H. bind_done H.
  apply int_add_done in E. subst. congruence.
Qed.

(** One iteration of the loop, on a line that was parsed. *)
Lemma run_step (fuel : nat) (trace_file : list string) (i : nat) (f : frame)
  (w : world) (trace : string) :
  nth_error trace_file i = Some trace ->
  run (S fuel) trace_file i f w =
  '(activity, duration_intr, prog) <- parse trace ;;
  if String.eqb activity "CPU" then
    f1 <- log_event "CPU Burst" duration_intr f ;;
    run fuel trace_file (S i) f1 w
  else if String.eqb activity "SYSCALL" then
    f1 <- service "SYSCALL ISR" duration_intr f ;;
    run fuel trace_file (S i) f1 w
  else if String.eqb activity "END_IO" then
    f1 <- service "ENDIO ISR" duration_intr f ;;
    run fuel trace_file (S i) f1 w
  else if String.eqb activity "FORK" then
    '(f1, w1, child) <- fork_clone duration_intr f w ;;
    '(child_trace, parent_index) <- child_section trace_file i ;;
    call f1
      (run fuel child_trace 0 (init_frame (current_time f1) child []) w1)
      (fun '(r, w2) =>
         let f2 := splice f1 r in
         let '(_, pool) := free_memory child (memory w2) in
         run fuel trace_file (S parent_index) f2
           (mkWorld (next_pid w2) pool (rand_calls w2) (cerr w2)))
  else if String.eqb activity "EXEC" then
    '(f1, w1) <- exec_replace duration_intr prog f w ;;
    match open_file (prog +++ ".txt") with
    | None =>
        Done (Returned
                (finish f1,
                 mkWorld (next_pid w1) (memory w1) (rand_calls w1)
                   (cerr w1 ++ ["ERROR! Could not open " +++ prog +++ ".txt"])))
    | Some exec_traces =>
        call f1
          (run fuel exec_traces 0
             (init_frame (current_time f1) (current f1) (wait_queue f1)) w1)
          (fun '(r, w2) => Done (Returned (finish (splice f1 r), w2)))
    end
  else run fuel trace_file (S i) f w.
Proof.
  intros H. cbn [run]. rewrite H. reflexivity.
Qed.


Ltac split_tag H a tag E :=
  destruct (String.eqb a tag) eqn:E in H;
  [apply String.eqb_eq in E; subst a|].

Lemma handled_false (a : string) :
  String.eqb a "CPU" = false -> String.eqb a "SYSCALL" = false ->
  String.eqb a "END_IO" = false -> String.eqb a "FORK" = false ->
  String.eqb a "EXEC" = false -> handled a = false.
Proof.
  intros H1 H2 H3 H4 H5. unfold handled. cbn [existsb].
  rewrite H1, H2, H3, H4, H5. reflexivity.
Qed.

(** Every point that a run shows is a point of [reach]. *)
Lemma run_reach (fuel : nat) :
  forall trace_file i f w r w',
    observed (run fuel trace_file i f w) = Some (r, w') ->
    reach trace_file i f w r w'.
Proof.
  induction fuel as [|fuel IH]; intros trace_file i f w r w' H.
  - cbn in H. injection H as <- <-. apply reach_here.
  - destruct (nth_error trace_file i) as [trace|] eqn:Hnth.
    2:{ cbn [run] in H. rewrite Hnth in H. cbn in H. injection H as <- <-.
        apply reach_here. }
    rewrite (run_step fuel _ _ _ _ _ Hnth) in H.
    unfold parse in H.
    destruct (parse_trace trace) as [[[a d] p]|] eqn:Hp;
      cbn [raise_if_none bind observed] in H; [|discriminate H].
    split_tag H a "CPU" Ecpu.
    { bind_done H. eapply reach_cpu; eauto. }
    split_tag H a "SYSCALL" Esys.
    { bind_done H. eapply reach_service; eauto. }
    split_tag H a "END_IO" Eio.
    { bind_done H. eapply reach_service; eauto. }
    split_tag H a "FORK" Efork.
    { bind_done H. destruct a as [[f1 w1] child].
      bind_done H. destruct a as [child_trace parent_index].
      destruct (run fuel child_trace 0
                  (init_frame (current_time f1) child []) w1)
        as [[[rc w2]|[rc w2]]| |] eqn:Ec;
        cbn [call observed] in H; try discriminate H.
      - destruct (free_memory child (memory w2)) as [c pool] eqn:Ef.
        eapply reach_fork_parent; eauto.
        + apply IH. rewrite Ec. reflexivity.
        + rewrite Ef. cbn [snd]. apply IH. exact H.
      - injection H as <- <-.
        eapply reach_fork_child; eauto.
        apply IH. rewrite Ec. reflexivity. }
    split_tag H a "EXEC" Eexec.
    { bind_done H. destruct a as [f1 w1].
      destruct (open_file (p +++ ".txt")) as [exec_traces|] eqn:Eo.
      - destruct (run fuel exec_traces 0
                    (init_frame (current_time f1) (current f1)
                       (wait_queue f1)) w1)
          as [[[rc w2]|[rc w2]]| |] eqn:Ec;
          cbn [call observed] in H; try discriminate H;
          injection H as <- <-;
          eapply reach_exec; eauto; apply IH; rewrite Ec; reflexivity.
      - cbn [observed] in H. injection H as <- <-.
        eapply reach_exec_no_file; eauto. }
    eapply reach_other; eauto using handled_false.
Qed.

(** ** Fuel *)

(** An outcome that is settled stays the same with more fuel. *)
Lemma run_one_more (fuel : nat) :
  forall trace_file i f w,
    settled (run fuel trace_file i f w) ->
    run (S fuel) trace_file i f w = run fuel trace_file i f w.
Proof.
  induction fuel as [|fuel IH]; intros trace_file i f w Hs.
  - cbn in Hs. contradiction.
  - destruct (nth_error trace_file i) as [trace|] eqn:Hnth.
    2:{ cbn [run]. rewrite Hnth. reflexivity. }
    rewrite (run_step (S fuel) _ _ _ _ _ Hnth).
    rewrite (run_step fuel _ _ _ _ _ Hnth) in Hs |- *.
    destruct (parse trace) as [[[a d] p]| |]; cbn [bind] in Hs |- *;
      try reflexivity.
    destruct (String.eqb a "CPU").
    { destruct (log_event _ d f); cbn [bind] in Hs |- *; auto. }
    destruct (String.eqb a "SYSCALL").
    { destruct (service _ d f); cbn [bind] in Hs |- *; auto. }
    destruct (String.eqb a "END_IO").
    { destruct (service _ d f); cbn [bind] in Hs |- *; auto. }
    destruct (String.eqb a "FORK").
    { destruct (fork_clone d f w) as [[[f1 w1] child]| |];
        cbn [bind] in Hs |- *; try reflexivity.
      destruct (child_section trace_file i) as [[ct pi]| |];
        cbn [bind] in Hs |- *; try reflexivity.
      rewrite IH.
      - destruct (run fuel ct 0 _ w1) as [[[rc w2]|[rc w2]]| |];
          cbn [call] in Hs |- *; try reflexivity; try contradiction.
        destruct (free_memory child (memory w2)) as [c pool]. auto.
      - destruct (run fuel ct 0 _ w1) as [[[rc w2]|[rc w2]]| |];
          cbn [call settled] in Hs |- *; auto. }
    destruct (String.eqb a "EXEC"); [|auto].
    destruct (exec_replace d p f w) as [[f1 w1]| |]; cbn [bind] in Hs |- *;
      try reflexivity.
    destruct (open_file (p +++ ".txt")) as [et|]; [|reflexivity].
    rewrite IH; [reflexivity|].
    destruct (run fuel et 0 _ w1) as [[[rc w2]|[rc w2]]| |];
      cbn [call settled] in Hs |- *; auto.
Qed.

Lemma run_more_fuel (fuel more : nat) (trace_file : list string) (i : nat)
  (f : frame) (w : world) :
  settled (run fuel trace_file i f w) ->
  run (more + fuel) trace_file i f w = run fuel trace_file i f w.
Proof.
  intros Hs. induction more as [|more IH]; [reflexivity|].
  cbn [Nat.add]. rewrite run_one_more; rewrite IH; auto.
Qed.

(** ** The clock and the execution log *)

Lemma chained_app (l1 l2 : list entry) :
  forall t t1 t2,
    chained t l1 t1 -> chained t1 l2 t2 -> chained t (l1 ++ l2) t2.
Proof.
  induction l1 as [|x l1 IH]; cbn; intros t t1 t2 H1 H2.
  - subst. exact H2.
  - destruct H1 as [Hx H1]. split; [exact Hx|]. eapply IH; eassumption.
Qed.


Lemma timed_app (l1 l2 : list entry) (t t1 t2 : Z) :
  timed t l1 t1 -> timed t1 l2 t2 -> timed t (l1 ++ l2) t2.
Proof.
  intros [C1 N1] [C2 N2]. split.
  - eapply chained_app; eassumption.
  - intros Hs. apply Forall_app. auto.
Qed.

Lemma timed_one (t d : Z) (lbl : string) :
  (sane_inputs -> 0 <= d) -> timed t [mkEntry t d lbl] (t + d).
Proof.
  intros Hd. split.
  - cbn. auto.
  - intros Hs. constructor; [cbn; auto | constructor].
Qed.

Lemma timed_log_event (lbl : string) (d t0 : Z) (f f1 : frame) :
  log_event lbl d f = Done f1 ->
  (sane_inputs -> 0 <= d) ->
  timed t0 (execution f) (current_time f) ->
  timed t0 (execution f1) (current_time f1).
Proof.
  intros H Hd Hf. apply log_event_done in H. subst f1. cbn.
  eapply timed_app; [exact Hf | apply timed_one; exact Hd].
Qed.

Lemma timed_note (lbl : string) (t0 : Z) (f : frame) :
  timed t0 (execution f) (current_time f) ->
  timed t0 (execution (note lbl f)) (current_time (note lbl f)).
Proof.
  intros Hf. cbn. eapply timed_app; [exact Hf|].
  split.
  - cbn. split; [reflexivity | lia].
  - intros _. constructor; [cbn; lia | constructor].
Qed.

Lemma timed_intr_boilerplate (t n c : Z) (intr : list entry) (time : Z) :
  intr_boilerplate t n c vectors = Done (intr, time) ->
  0 <= c -> timed t intr time.
Proof.
  unfold intr_boilerplate. intros H Hc.
  destruct (n <? 0); [discriminate H|].
  bind_done H. bind_done H. bind_done H. bind_done H.
  apply int_add_done in E0, E1, E2. injection H as <- <-. subst.
  split.
  - cbn. auto.
  - intros _. repeat constructor; cbn; lia.
Qed.

Lemma timed_enter_interrupt (n t0 : Z) (f f1 : frame) :
  enter_interrupt n f = Done f1 ->
  timed t0 (execution f) (current_time f) ->
  timed t0 (execution f1) (current_time f1).
Proof.
  unfold enter_interrupt. intros H Hf. bind_done H. destruct a as [intr time].
  injection H as <-. cbn.
  eapply timed_app; [exact Hf|].
  eapply timed_intr_boilerplate; [eassumption | lia].
Qed.



Lemma same_process_refl (f : frame) : same_process f f.
Proof. repeat split. Qed.

Lemma same_process_trans (f f1 f2 : frame) :
  same_process f f1 -> same_process f1 f2 -> same_process f f2.
Proof.
  unfold same_process. intros (A & B & C) (A' & B' & C').
  repeat split; congruence.
Qed.

Lemma same_process_log_event (lbl : string) (d : Z) (f f1 : frame) :
  log_event lbl d f = Done f1 -> same_process f f1.
Proof.
  intros H. apply log_event_done in H. subst. repeat split.
Qed.

Lemma same_process_note (lbl : string) (f : frame) :
  same_process f (note lbl f).
Proof. repeat split. Qed.

Lemma same_process_enter_interrupt (n : Z) (f f1 : frame) :
  enter_interrupt n f = Done f1 -> same_process f f1.
Proof.
  unfold enter_interrupt. intros H. bind_done H. destruct a as [intr time].
  injection H as <-. repeat split.
Qed.

Lemma same_process_service (lbl : string) (d : Z) (f f1 : frame) :
  service lbl d f = Done f1 -> same_process f f1.
Proof.
  unfold service. intros H. bind_done H. bind_done H. bind_done H.
  eapply same_process_trans; [eapply same_process_enter_interrupt; eassumption|].
  eapply same_process_trans; eapply same_process_log_event; eassumption.
Qed.

(** What the FORK branch has done when it reaches the scan. *)
Lemma fork_clone_done (d : Z) (f f1 : frame) (w w1 : world) (child : PCB) :
  fork_clone d f w = Done (f1, w1, child) ->
  child = mkPCB (next_pid w) (PID (current f)) (program_name (current f))
            (size (current f)) (partition_number (current f)) /\
  w1 = mkWorld (next_pid w + 1) (memory w) (rand_calls w) (cerr w) /\
  system_status f1 =
    system_status f ++
    [mkSnapshot (current_time f1) (FORK_desc d) child
       (wait_queue f ++ [current f])] /\
  current f1 = current f /\
  wait_queue f1 = wait_queue f ++ [current f] /\
  forall t0, timed t0 (execution f) (current_time f) ->
             (sane_inputs -> 0 <= d) ->
             timed t0 (execution f1) (current_time f1).
Proof.
  unfold fork_clone. intros H.
  bind_done H. bind_done H. bind_done H. bind_done H.
  apply int_add_done in E2. subst.
  assert (S3 : same_process f a1).
  { eapply same_process_trans;
      [eapply same_process_enter_interrupt; eassumption|].
    eapply same_process_trans;
      [eapply same_process_log_event; eassumption|].
    eapply same_process_trans;
      [apply same_process_note | eapply same_process_log_event; eassumption]. }
  destruct S3 as (Hs & Hc & Hq).
  injection H as <- <- <-. cbn. rewrite Hs, Hc, Hq.
  do 5 (split; [reflexivity|]).
  intros t0 Hf Hd.
  eapply timed_log_event; [eassumption | lia |].
  apply timed_note.
  eapply timed_log_event; [eassumption | assumption |].
  eapply timed_enter_interrupt; eassumption.
Qed.

Lemma get_size_in (name : string) (files : list external_file) (sz : Z) :
  get_size name files = Some sz ->
  exists x, In x files /\ file_size x = sz.
Proof.
  induction files as [|x files IH]; cbn; [discriminate|].
  destruct (String.eqb (file_name x) name).
  - intros H. injection H as <-. exists x. auto.
  - intros H. destruct (IH H) as (y & Hy & Hsz). exists y. auto.
Qed.

Lemma to_int_small (z : Z) : 0 <= z <= INT_MAX -> to_int z = z.
Proof.
  intros H. unfold to_int, UINT_MOD, INT_MAX in *.
  rewrite Z.mod_small by lia.
  destruct (z <=? 2147483647) eqn:E; [reflexivity|].
  apply Z.leb_gt in E. lia.
Qed.

Lemma to_unsigned_nonneg (z : Z) : 0 <= to_unsigned z.
Proof.
  unfold to_unsigned, UINT_MOD. apply Z.mod_pos_bound. lia.
Qed.

Lemma free_memory_pid (pcb : PCB) (pool : list partition) :
  PID (fst (free_memory pcb pool)) = PID pcb /\
  PPID (fst (free_memory pcb pool)) = PPID pcb.
Proof.
  unfold free_memory. destruct (partition_number pcb =? NO_PARTITION); auto.
Qed.

Lemma allocate_memory_pid (pcb : PCB) (pool : list partition) :
  PID (snd (fst (allocate_memory pcb pool))) = PID pcb /\
  PPID (snd (fst (allocate_memory pcb pool))) = PPID pcb.
Proof.
  unfold allocate_memory. destruct (best_fit (size pcb) pool None); auto.
Qed.

(** What the EXEC branch has done when it opens the trace of the program. *)
Lemma exec_replace_done (d : Z) (p : string) (f f1 : frame) (w w1 : world) :
  exec_replace d p f w = Done (f1, w1) ->
  next_pid w1 = next_pid w /\
  PID (current f1) = PID (current f) /\
  PPID (current f1) = PPID (current f) /\
  system_status f1 =
    system_status f ++
    [mkSnapshot (current_time f1) (EXEC_desc p d) (current f1)
       (wait_queue f)] /\
  wait_queue f1 = wait_queue f /\
  forall t0, timed t0 (execution f) (current_time f) ->
             (sane_inputs -> 0 <= d) ->
             timed t0 (execution f1) (current_time f1).
Proof.
  unfold exec_replace. intros H.
  bind_done H.
  destruct (get_size p external_files) as [sz|] eqn:Hsz;
    cbn [raise_if_none bind] in H; [|discriminate H].
  bind_done H. bind_done H.
  destruct (free_memory (current a1) (memory w)) as [freed pool1] eqn:Hfree.
  destruct (allocate_memory _ pool1) as [[ok current'] pool2] eqn:Halloc.
  bind_done H. bind_done H. bind_done H.
  assert (S5 : same_process f a3).
  { eapply same_process_trans;
      [eapply same_process_enter_interrupt; eassumption|].
    eapply same_process_trans;
      [eapply same_process_log_event; eassumption|].
    eapply same_process_trans;
      [eapply same_process_log_event; eassumption|].
    eapply same_process_trans;
      [eapply same_process_log_event; eassumption|].
    eapply same_process_log_event; eassumption. }
  assert (S3 : same_process f a1).
  { eapply same_process_trans;
      [eapply same_process_enter_interrupt; eassumption|].
    eapply same_process_trans;
      eapply same_process_log_event; eassumption. }
  assert (S6 : same_process a3 a4).
  { eapply same_process_trans;
      [apply same_process_note | eapply same_process_log_event; eassumption]. }
  destruct (same_process_trans _ _ _ S5 S6) as (Hs & Hc & Hq).
  destruct S3 as (_ & Hc3 & _).
  pose proof (free_memory_pid (current a1) (memory w)) as [Hp1 Hp2].
  rewrite Hfree in Hp1, Hp2. cbn [fst] in Hp1, Hp2.
  match type of Halloc with
  | allocate_memory ?u _ = _ =>
      pose proof (allocate_memory_pid u pool1) as [Hq1 Hq2]
  end.
  rewrite Halloc in Hq1, Hq2. cbn in Hq1, Hq2.
  injection H as <- <-. cbn. rewrite Hs, Hq.
  split; [reflexivity|].
  split; [congruence|]. split; [congruence|].
  do 2 (split; [reflexivity|]).
  intros t0 Hf Hd.
  eapply timed_log_event; [eassumption | lia |].
  apply timed_note.
  eapply timed_log_event; [eassumption | |].
  { intros _.
    pose proof (Z.mod_pos_bound (Z.of_N (rand (S (rand_calls w)))) 10). lia. }
  eapply timed_log_event; [eassumption | |].
  { intros _.
    pose proof (Z.mod_pos_bound (Z.of_N (rand (rand_calls w))) 10). lia. }
  eapply timed_log_event; [eassumption | |].
  { intros (_ & _ & Hfiles).
    apply get_size_in in Hsz. destruct Hsz as (x & Hx & <-).
    rewrite Forall_forall in Hfiles. specialize (Hfiles x Hx).
    pose proof (to_unsigned_nonneg (file_size x)).
    rewrite to_int_small; lia. }
  eapply timed_log_event; [eassumption | assumption |].
  eapply timed_enter_interrupt; eassumption.
Qed.






(** ** The pids issued by FORK *)

Lemma fork_pids_app (a b : list snapshot) :
  fork_pids (a ++ b) = fork_pids a ++ fork_pids b.
Proof.
  induction a as [|x a IH]; cbn; [reflexivity|].
  destruct (snap_trace x); cbn; rewrite IH; reflexivity.
Qed.

Lemma consecutive_app (n m : nat) :
  forall a, consecutive a (n + m) =
            consecutive a n ++ consecutive (a + Z.of_nat n) m.
Proof.
  induction n as [|n IH]; intros a.
  - cbn. f_equal. lia.
  - cbn [Nat.add consecutive app]. rewrite IH. do 3 f_equal. lia.
Qed.




(** At every point reached, the FORKs made since the loop was entered have
    given the successive values of the counter to their children. *)
Lemma reach_fork_pids (trace_file : list string) (i : nat) (f : frame)
  (w : world) (r : result) (w' : world) :
  reach trace_file i f w r w' ->
  exists n : nat,
    fork_pids (snd (fst r)) =
      fork_pids (system_status f) ++ consecutive (next_pid w) n /\
    next_pid w' = next_pid w + Z.of_nat n.
Proof.
  induction 1 as
    [ trace_file i f w
    | trace_file i f w trace d p f1 r w' Hnth Hp Hlog Hr IH
    | trace_file i f w trace a d p lbl f1 r w' Hnth Hp Htag Hsvc Hr IH
    | trace_file i f w trace a d p r w' Hnth Hp Hh Hr IH
    | trace_file i f w trace d p f1 w1 child ct pi r w2 Hnth Hp Hfork Hcs
        Hr IH
    | trace_file i f w trace d p f1 w1 child ct pi rc w2 r w' Hnth Hp Hfork
        Hcs Hc IHc Hr IH
    | trace_file i f w trace d p f1 w1 Hnth Hp Hexec Hopen
    | trace_file i f w trace d p f1 w1 et r w2 Hnth Hp Hexec Hopen Hr IH ].
  - exists 0%nat. cbn. rewrite app_nil_r. split; [reflexivity | lia].
  - apply same_process_log_event in Hlog. destruct Hlog as (Hs & _).
    rewrite Hs in IH. exact IH.
  - apply same_process_service in Hsvc. destruct Hsvc as (Hs & _).
    rewrite Hs in IH. exact IH.
  - exact IH.
  - apply fork_clone_done in Hfork.
    destruct Hfork as (Hchild & Hw1 & Hs & _).
    destruct IH as (n & Hn & Hpid). exists (S n).
    destruct r as [[e s] t]. cbn in Hn |- *.
    rewrite fork_pids_app, Hs, fork_pids_app, Hn. cbn.
    rewrite Hchild at 1. cbn. rewrite Hpid, Hw1. cbn.
    rewrite <- app_assoc. cbn. split; [reflexivity | lia].
  - apply fork_clone_done in Hfork.
    destruct Hfork as (Hchild & Hw1 & Hs & _).
    destruct IHc as (n & Hn & Hpid). destruct IH as (m & Hm & Hpid').
    exists (S n + m)%nat.
    destruct rc as [[e s] t]. cbn in Hn, Hm, Hpid'.
    rewrite Hm, fork_pids_app, Hs, fork_pids_app, Hn. cbn [fork_pids].
    cbn [snap_trace snap_pcb]. rewrite Hchild at 1. cbn [PID app].
    rewrite Hpid', Hpid, Hw1. cbn [next_pid].
    rewrite (consecutive_app (S n) m). cbn [consecutive].
    rewrite <- !app_assoc. cbn [app]. split; [|lia].
    replace (next_pid w + Z.of_nat (S n)) with (next_pid w + 1 + Z.of_nat n)
      by lia.
    reflexivity.
  - apply exec_replace_done in Hexec.
    destruct Hexec as (Hw1 & _ & _ & Hs & _).
    exists 0%nat. cbn. rewrite Hs, fork_pids_app. cbn.
    split; [reflexivity | lia].
  - apply exec_replace_done in Hexec.
    destruct Hexec as (Hw1 & _ & _ & Hs & _).
    destruct IH as (n & Hn & Hpid). exists n.
    destruct r as [[e s] t]. cbn in Hn |- *.
    rewrite fork_pids_app, Hs, fork_pids_app, Hn. cbn.
    rewrite app_nil_r, Hw1. split; [reflexivity | lia].
Qed.




(** ** The partition of a forked child *)

(** C6, as amended: at every point of a call of the interpreter, returned
    or still running, every status block written by a FORK shows a child
    that holds the partition of its parent, the parent being the PCB that
    the FORK has put at the end of the wait queue: a FORK gives the child a
    copy of the parent's partition number and allocates nothing. *)
Theorem fork_child_shares_partition (fuel : nat) (trace_file : list string)
  (time : Z) (pcb : PCB) (queue : list PCB) (w : world) (e : list entry)
  (s : list snapshot) (t : Z) (w' : world) :
  observed (simulate_trace fuel trace_file time pcb queue w)
  = Some ((e, s, t), w') ->
  Forall shares_partition s.
Proof.
  intros H. apply run_reach in H.
  enough (G : forall trace_file i f w r w',
             reach trace_file i f w r w' ->
             Forall shares_partition (system_status f) ->
             Forall shares_partition (snd (fst r))).
  { apply G in H; [exact H | constructor]. }
  clear. intros trace_file i f w r w'.
  induction 1 as
    [ trace_file i f w
    | trace_file i f w trace d p f1 r w' Hnth Hp Hlog Hr IH
    | trace_file i f w trace a d p lbl f1 r w' Hnth Hp Htag Hsvc Hr IH
    | trace_file i f w trace a d p r w' Hnth Hp Hh Hr IH
    | trace_file i f w trace d p f1 w1 child ct pi r w2 Hnth Hp Hfork Hcs
        Hr IH
    | trace_file i f w trace d p f1 w1 child ct pi rc w2 r w' Hnth Hp Hfork
        Hcs Hc IHc Hr IH
    | trace_file i f w trace d p f1 w1 Hnth Hp Hexec Hopen
    | trace_file i f w trace d p f1 w1 et r w2 Hnth Hp Hexec Hopen Hr IH ];
    intros Hf.
  - exact Hf.
  - apply same_process_log_event in Hlog. destruct Hlog as (Hs & _).
    apply IH. rewrite Hs. exact Hf.
  - apply same_process_service in Hsvc. destruct Hsvc as (Hs & _).
    apply IH. rewrite Hs. exact Hf.
  - apply IH, Hf.
  - apply fork_clone_done in Hfork.
    destruct Hfork as (Hchild & _ & Hs & _).
    destruct r as [[e s] t]. cbn in IH |- *.
    apply Forall_app. split; [|apply IH; constructor].
    rewrite Hs. apply Forall_app. split; [exact Hf|].
    constructor; [|constructor]. unfold shares_partition. cbn.
    exists (wait_queue f), (current f). subst child. cbn. auto.
  - apply fork_clone_done in Hfork.
    destruct Hfork as (Hchild & _ & Hs & _).
    apply IH. destruct rc as [[e s] t]. cbn in IHc |- *.
    apply Forall_app. split; [|apply IHc; constructor].
    rewrite Hs. apply Forall_app. split; [exact Hf|].
    constructor; [|constructor]. unfold shares_partition. cbn.
    exists (wait_queue f), (current f). subst child. cbn. auto.
  - apply exec_replace_done in Hexec.
    destruct Hexec as (_ & _ & _ & Hs & _).
    cbn. rewrite Hs. apply Forall_app. split; [exact Hf|].
    constructor; [exact I | constructor].
  - apply exec_replace_done in Hexec.
    destruct Hexec as (_ & _ & _ & Hs & _).
    destruct r as [[e s] t]. cbn in IH |- *.
    apply Forall_app. split; [|apply IH; constructor].
    rewrite Hs. apply Forall_app. split; [exact Hf|].
    constructor; [exact I | constructor].
Qed.

(** ** EXEC ends the loop *)

Lemma nth_error_middle {A : Type} (before after : list A) (x : A) :
  nth_error (before ++ x :: after) (length before) = Some x.
Proof.
  rewrite nth_error_app2 by lia. rewrite Nat.sub_diag. reflexivity.
Qed.

(** The iteration of the loop on an EXEC line. *)
Lemma run_exec_step (fuel : nat) (before after : list string)
  (trace : string) (d : Z) (p : string) (f : frame) (w : world) :
  parse_trace trace = Some ("EXEC", d, p) ->
  run (S fuel) (before ++ trace :: after) (length before) f w =
  ('(f1, w1) <- exec_replace d p f w ;;
   match open_file (p +++ ".txt") with
   | None =>
       Done (Returned
               (finish f1,
                mkWorld (next_pid w1) (memory w1) (rand_calls w1)
                  (cerr w1 ++ ["ERROR! Could not open " +++ p +++ ".txt"])))
   | Some exec_traces =>
       call f1
         (simulate_trace fuel exec_traces (current_time f1) (current f1)
            (wait_queue f1) w1)
         (fun '(r, w2) => Done (Returned (finish (splice f1 r), w2)))
   end).
Proof.
  intros Hp.
  rewrite (run_step fuel _ _ _ _ _ (nth_error_middle before after trace)).
  unfold parse. rewrite Hp. reflexivity.
Qed.

(** C2: when the loop is at an EXEC line, what it does and what it returns
    does not depend on the lines that follow the EXEC in the trace.  Once
    the EXEC branch has logged the replacement of the image, with the
    execution log [execution f1] and the status log [system_status f1],
    the output of the branch is that, followed by exactly what the
    recursive call on the trace of the new program gives: when the call
    returns the logs [e'] and [s'], the clock [t'] and the process state
    [w2], the branch returns [execution f1 ++ e'], [system_status f1 ++ s'],
    [t'] and [w2]; when the call is still running, so is the branch, with
    the same logs; when the call fails, the branch fails in the same way;
    and when the file of the program cannot be opened the branch returns
    its own logs at once. *)
Theorem exec_is_terminal (fuel : nat) (before after after' : list string)
  (trace : string) (d : Z) (p : string) (f : frame) (w : world) :
  parse_trace trace = Some ("EXEC", d, p) ->
  run fuel (before ++ trace :: after) (length before) f w =
  run fuel (before ++ trace :: after') (length before) f w /\
  forall f1 w1,
    exec_replace d p f w = Done (f1, w1) ->
    match open_file (p +++ ".txt") with
    | None =>
        run (S fuel) (before ++ trace :: after) (length before) f w =
        Done (Returned
                ((execution f1, system_status f1, current_time f1),
                 mkWorld (next_pid w1) (memory w1) (rand_calls w1)
                   (cerr w1 ++ ["ERROR! Could not open " +++ p +++ ".txt"])))
    | Some exec_traces =>
        match
          simulate_trace fuel exec_traces (current_time f1) (current f1)
            (wait_queue f1) w1
        with
        | Done (Returned ((e', s', t'), w2)) =>
            run (S fuel) (before ++ trace :: after) (length before) f w =
            Done (Returned
                    ((execution f1 ++ e', system_status f1 ++ s', t'), w2))
        | Done (Running ((e', s', t'), w2)) =>
            run (S fuel) (before ++ trace :: after) (length before) f w =
            Done (Running
                    ((execution f1 ++ e', system_status f1 ++ s', t'), w2))
        | Fatal err =>
            run (S fuel) (before ++ trace :: after) (length before) f w =
            Fatal err
        | Undefined =>
            run (S fuel) (before ++ trace :: after) (length before) f w =
            Undefined
        end
    end.
Proof.
  intros Hp. split.
  - destruct fuel as [|n]; [reflexivity|].
    rewrite !(run_exec_step n _ _ _ _ _ _ _ Hp). reflexivity.
  - intros f1 w1 Hexec.
    rewrite (run_exec_step fuel _ _ _ _ _ _ _ Hp), Hexec. cbn [bind].
    destruct (open_file (p +++ ".txt")) as [exec_traces|]; [|reflexivity].
    destruct (simulate_trace fuel exec_traces (current_time f1) (current f1)
                (wait_queue f1) w1)
      as [[[[[e' s'] t'] w2]|[[[e' s'] t'] w2]]| |]; reflexivity.
Qed.

(** ** Tags without a branch *)

(** C3, as amended: the interpreter records no error for a line whose tag
    is not one of the eight.  When the parser raises its error the
    exception leaves the call, and no log is returned; when the parser
    returns the tag, the line has no branch in the loop, like the three
    markers, and the loop goes on with the next line, the logs, the clock
    and the process state being as they were. *)
Theorem unknown_tag_is_not_recorded (fuel : nat) (trace_file : list string)
  (i : nat) (f : frame) (w : world) (trace : string) :
  nth_error trace_file i = Some trace ->
  match parse_trace trace with
  | None => run (S fuel) trace_file i f w = Fatal ParseError
  | Some (activity, _, _) =>
      known_tag activity = false ->
      run (S fuel) trace_file i f w = run fuel trace_file (S i) f w
  end.
Proof.
  intros Hnth. rewrite (run_step fuel _ _ _ _ _ Hnth). unfold parse.
  destruct (parse_trace trace) as [[[a d] p]|]; [|reflexivity].
  cbn [raise_if_none bind]. unfold known_tag, activity_tags.
  cbn [existsb]. intros H.
  repeat (apply orb_false_iff in H; destruct H as [? H]).
  repeat match goal with E : String.eqb a _ = false |- _ =>
    rewrite E; clear E end.
  reflexivity.
Qed.

(** ** The scan of the FORK branch *)

(** The scan only adds lines to the child trace. *)
Lemma carve_extends (lines : list string) :
  forall j skip exec_flag parent_index child_trace child_trace' parent_index',
    carve lines j skip exec_flag parent_index child_trace
    = Done (child_trace', parent_index') ->
    exists more, child_trace' = child_trace ++ more.
Proof.
  induction lines as [|line rest IH];
    intros j skip exec_flag pi ct ct' pi' H; cbn [carve] in H.
  - injection H as <- <-. exists []. rewrite app_nil_r. reflexivity.
  - unfold parse in H.
    destruct (parse_trace line) as [[[a d] p]|];
      cbn [raise_if_none bind] in H; [|discriminate H].
    destruct (skip && String.eqb a "IF_CHILD"); [eapply IH; eassumption|].
    destruct (String.eqb a "IF_PARENT").
    { destruct exec_flag; [|eapply IH; eassumption].
      injection H as <- <-. exists []. rewrite app_nil_r. reflexivity. }
    destruct (skip && String.eqb a "ENDIF"); [eapply IH; eassumption|].
    destruct (negb skip && String.eqb a "EXEC").
    { apply IH in H. destruct H as (more & ->).
      exists (line :: more). rewrite <- app_assoc. reflexivity. }
    destruct skip; [eapply IH; eassumption|].
    apply IH in H. destruct H as (more & ->).
    exists (line :: more). rewrite <- app_assoc. reflexivity.
Qed.

(** C5, as amended: an ENDIF line met while the scan skips lines ends the
    skipping.  The ENDIF itself is not collected, and the scan goes on in
    collecting mode: the line after the ENDIF is added to the child trace,
    unless it is an IF_PARENT. *)
Theorem endif_ends_skip_mode (line : string) (rest : list string) (j : nat)
  (exec_flag : bool) (parent_index : nat) (child_trace : list string) :
  is_tag "ENDIF" line = true ->
  carve (line :: rest) j true exec_flag parent_index child_trace =
  carve rest (S j) false exec_flag parent_index child_trace /\
  forall next rest' child_trace' parent_index',
    rest = next :: rest' ->
    is_tag "IF_PARENT" next = false ->
    carve (line :: rest) j true exec_flag parent_index child_trace
    = Done (child_trace', parent_index') ->
    In next child_trace'.
Proof.
  unfold is_tag. intros Hline.
  destruct (parse_trace line) as [[[a d] p]|] eqn:Hp; [|discriminate Hline].
  apply String.eqb_eq in Hline. subst a.
  assert (Heq : carve (line :: rest) j true exec_flag parent_index child_trace =
                carve rest (S j) false exec_flag parent_index child_trace).
  { cbn [carve]. unfold parse. rewrite Hp. reflexivity. }
  split; [exact Heq|].
  intros next rest' ct' pi' -> Hnext H. rewrite Heq in H.
  cbn [carve] in H. unfold parse in H.
  destruct (parse_trace next) as [[[a d'] p']|];
    cbn [raise_if_none bind andb negb] in H; [|discriminate H].
  rewrite Hnext in H.
  destruct (String.eqb a "EXEC");
    apply carve_extends in H; destruct H as (more & ->);
    apply in_or_app; left; apply in_or_app; right; left; reflexivity.
Qed.


(** ** Operands outside the tables *)

(** The prologue rejects an operand that is not an index of the vector
    table, before the delay table is read. *)
Lemma service_outside_vectors (lbl : string) (d : Z) (f : frame) :
  in_table vectors d = false ->
  service lbl d f = Fatal OutOfRangeVector.
Proof.
  unfold in_table, service, enter_interrupt, intr_boilerplate. intros Hv.
  destruct (d <? 0) eqn:Hneg; [reflexivity|].
  apply Z.ltb_ge in Hneg.
  replace (0 <=? d) with true in Hv by (symmetry; apply Z.leb_le; lia).
  cbn [andb] in Hv. apply Z.ltb_ge in Hv.
  replace (nth_error vectors (Z.to_nat d)) with (@None string);
    [reflexivity|].
  symmetry. apply nth_error_None. lia.
Qed.

(** The delay table is read without a check. *)
Lemma service_outside_delays (lbl : string) (d : Z) (f : frame) :
  in_table vectors d = true -> in_table delays d = false ->
  service lbl d f = Undefined.
Proof.
  unfold in_table, service, enter_interrupt, intr_boilerplate.
  intros Hv Hd. apply andb_true_iff in Hv. destruct Hv as [Hpos Hv].
  apply Z.leb_le in Hpos. apply Z.ltb_lt in Hv.
  rewrite (proj2 (Z.leb_le 0 d) Hpos) in Hd. cbn [andb] in Hd.
  apply Z.ltb_ge in Hd.
  replace (d <? 0) with false by (symmetry; apply Z.ltb_ge; lia).
  assert (Hnone : vector_index delays d = Undefined).
  { unfold vector_index.
    replace (d <? 0) with false by (symmetry; apply Z.ltb_ge; lia).
    replace (nth_error delays (Z.to_nat d)) with (@None Z); [reflexivity|].
    symmetry. apply nth_error_None. lia. }
  destruct (nth_error vectors (Z.to_nat d)) eqn:Hn.
  2:{ apply nth_error_None in Hn. lia. }
  cbn [raise_if_none bind]. unfold int_add.
  destruct (in_int (current_time f + 1)); cbn [bind]; [|reflexivity].
  destruct (in_int (current_time f + 1 + 10)); cbn [bind]; [|reflexivity].
  destruct (in_int (current_time f + 1 + 10 + 1)); cbn [bind];
    [|reflexivity].
  rewrite Hnone. reflexivity.
Qed.

(** C9, as amended: on a SYSCALL or END_IO whose operand is not an index of
    the vector table, whatever the delay table is, the call fails with
    [OutOfRangeVector], raised by the prologue; when the operand is an
    index of the vector table and not of the ISR delay table, the delay
    table is read without a check, past its end, and the call has no
    defined outcome: no [OutOfRangeVector] is raised. *)
Theorem operand_outside_delay_table (fuel : nat) (trace_file : list string)
  (i : nat) (f : frame) (w : world) (trace : string) (d : Z) :
  nth_error trace_file i = Some trace ->
  is_tag "SYSCALL" trace = true \/ is_tag "END_IO" trace = true ->
  (exists a p, parse_trace trace = Some (a, d, p)) ->
  (in_table vectors d = false ->
   run (S fuel) trace_file i f w = Fatal OutOfRangeVector) /\
  (in_table vectors d = true -> in_table delays d = false ->
   run (S fuel) trace_file i f w = Undefined).
Proof.
  intros Hnth Htag (a & p & Hp).
  assert (Hrun : forall o,
             (forall lbl, service lbl d f = o) ->
             run (S fuel) trace_file i f w =
             bind o (fun f1 => run fuel trace_file (S i) f1 w)).
  { intros o Ho.
    rewrite (run_step fuel _ _ _ _ _ Hnth). unfold parse.
    unfold is_tag in Htag. rewrite Hp in Htag |- *.
    cbn [raise_if_none bind].
    destruct Htag as [Ht|Ht]; apply String.eqb_eq in Ht; subst a;
      cbn [String.eqb Ascii.eqb Bool.eqb]; rewrite Ho; reflexivity. }
  split.
  - intros Hv. rewrite (Hrun (Fatal OutOfRangeVector)); [reflexivity|].
    intros lbl. apply service_outside_vectors, Hv.
  - intros Hv Hd. rewrite (Hrun Undefined); [reflexivity|].
    intros lbl. apply service_outside_delays; assumption.
Qed.

(** ** Lists *)

Lemma skipn_middle {A : Type} (before after : list A) (x : A) :
  skipn (S (length before)) (before ++ x :: after) = after.
Proof.
  induction before as [|y before IH]; [reflexivity|exact IH].
Qed.

Lemma forallb_nth_error {A : Type} (test : A -> bool) (l : list A) (n : nat)
  (x : A) :
  forallb test l = true -> nth_error l n = Some x -> test x = true.
Proof.
  intros Hall Hn. rewrite forallb_forall in Hall.
  apply Hall. eapply nth_error_In. eassumption.
Qed.

(** * Further properties of the interpreter *)

(** ** Traces without FORK and EXEC *)

Lemma plain_line_tags (trace a p : string) (d : Z) :
  plain_line trace = true -> parse_trace trace = Some (a, d, p) ->
  String.eqb a "FORK" = false /\ String.eqb a "EXEC" = false.
Proof.
  unfold plain_line, is_tag. intros H Hp. rewrite Hp in H.
  apply andb_true_iff in H. destruct H as [H1 H2].
  apply negb_true_iff in H1, H2. auto.
Qed.

(** Entered with more iterations than there are lines left, the loop comes
    to an end on a trace without FORK and EXEC. *)
Lemma run_plain_settles (trace_file : list string) (w : world) :
  forallb plain_line trace_file = true ->
  forall n i f,
    (length trace_file - i < n)%nat ->
    settled (run n trace_file i f w).
Proof.
  intros Hplain.
  induction n as [|n IH]; intros i f Hn; [lia|].
  destruct (nth_error trace_file i) as [trace|] eqn:Hnth.
  2:{ cbn [run]. rewrite Hnth. exact I. }
  assert (Hi : (i < length trace_file)%nat).
  { apply nth_error_Some. rewrite Hnth. discriminate. }
  rewrite (run_step n _ _ _ _ _ Hnth). unfold parse.
  pose proof (forallb_nth_error _ _ _ _ Hplain Hnth) as Hline.
  destruct (parse_trace trace) as [[[a d] p]|] eqn:Hp;
    cbn [raise_if_none bind]; [|exact I].
  destruct (plain_line_tags _ _ _ _ Hline Hp) as [Hf He].
  rewrite Hf, He.
  destruct (String.eqb a "CPU").
  { destruct (log_event _ d f); cbn [bind]; try exact I. apply IH. lia. }
  destruct (String.eqb a "SYSCALL").
  { destruct (service _ d f); cbn [bind]; try exact I. apply IH. lia. }
  destruct (String.eqb a "END_IO").
  { destruct (service _ d f); cbn [bind]; try exact I. apply IH. lia. }
  apply IH. lia.
Qed.

(** X1: a trace that has no FORK and no EXEC line is interpreted in one
    pass.  With more iterations than the trace has lines the call has come
    to an end: it has returned, or a helper has raised its error, or the
    behaviour is undefined; it is not still running. *)
Theorem plain_trace_settles (fuel : nat) (trace_file : list string)
  (time : Z) (pcb : PCB) (queue : list PCB) (w : world) :
  forallb plain_line trace_file = true ->
  (length trace_file < fuel)%nat ->
  settled (simulate_trace fuel trace_file time pcb queue w).
Proof.
  intros Hplain Hfuel. unfold simulate_trace.
  apply run_plain_settles; [exact Hplain | lia].
Qed.

(** On a trace without FORK and EXEC the loop writes no status block and
    leaves the state of the process as it is. *)
Lemma reach_plain (trace_file : list string) (i : nat) (f : frame)
  (w : world) (r : result) (w' : world) :
  reach trace_file i f w r w' ->
  forallb plain_line trace_file = true ->
  snd (fst r) = system_status f /\ w' = w.
Proof.
  induction 1 as
    [ trace_file i f w
    | trace_file i f w trace d p f1 r w' Hnth Hp Hlog Hr IH
    | trace_file i f w trace a d p lbl f1 r w' Hnth Hp Htag Hsvc Hr IH
    | trace_file i f w trace a d p r w' Hnth Hp Hh Hr IH
    | trace_file i f w trace d p f1 w1 child ct pi r w2 Hnth Hp Hfork Hcs
        Hr IH
    | trace_file i f w trace d p f1 w1 child ct pi rc w2 r w' Hnth Hp Hfork
        Hcs Hc IHc Hr IH
    | trace_file i f w trace d p f1 w1 Hnth Hp Hexec Hopen
    | trace_file i f w trace d p f1 w1 et r w2 Hnth Hp Hexec Hopen Hr IH ];
    intros Hplain;
    try (pose proof (forallb_nth_error _ _ _ _ Hplain Hnth) as Hline;
         destruct (plain_line_tags _ _ _ _ Hline Hp) as [Hf He];
         try discriminate Hf; try discriminate He).
  - auto.
  - apply same_process_log_event in Hlog. destruct Hlog as (Hs & _).
    destruct (IH Hplain) as [A B]. split; congruence.
  - apply same_process_service in Hsvc. destruct Hsvc as (Hs & _).
    destruct (IH Hplain) as [A B]. split; congruence.
  - auto.
Qed.

(** X2: a trace that has no FORK and no EXEC line changes nothing but the
    execution log and the clock.  At every point of the call the status log
    is empty, and the pid counter, the partition table, the number of calls
    of [rand] and the error stream are as they were at the start. *)
Theorem plain_trace_keeps_state (fuel : nat) (trace_file : list string)
  (time : Z) (pcb : PCB) (queue : list PCB) (w : world) (e : list entry)
  (s : list snapshot) (t : Z) (w' : world) :
  forallb plain_line trace_file = true ->
  observed (simulate_trace fuel trace_file time pcb queue w)
  = Some ((e, s, t), w') ->
  s = [] /\ w' = w.
Proof.
  intros Hplain H. apply run_reach in H.
  apply (reach_plain _ _ _ _ _ _ H Hplain).
Qed.

(** ** The final clock *)



(** ** Status blocks, pids and random numbers *)

Lemma exec_blocks_app (a b : list snapshot) :
  exec_blocks (a ++ b) = (exec_blocks a + exec_blocks b)%nat.
Proof.
  induction a as [|x a IH]; cbn; [reflexivity|].
  destruct (snap_trace x); cbn; rewrite IH; reflexivity.
Qed.

Lemma consecutive_length (n : nat) :
  forall a, length (consecutive a n) = n.
Proof.
  induction n as [|n IH]; intros a; cbn; [reflexivity|].
  rewrite IH. reflexivity.
Qed.

(** The EXEC branch calls [rand] twice. *)
Lemma exec_replace_rand (d : Z) (p : string) (f f1 : frame) (w w1 : world) :
  exec_replace d p f w = Done (f1, w1) ->
  rand_calls w1 = S (S (rand_calls w)).
Proof.
  unfold exec_replace. intros H.
  bind_done H.
  destruct (get_size p external_files) as [sz|];
    cbn [raise_if_none bind] in H; [|discriminate H].
  bind_done H. bind_done H.
  destruct (free_memory (current a1) (memory w)) as [freed pool1].
  destruct (allocate_memory _ pool1) as [[ok current'] pool2].
  bind_done H. bind_done H. bind_done H.
  injection H as _ <-. reflexivity.
Qed.

Lemma reach_rand_calls (trace_file : list string) (i : nat) (f : frame)
  (w : world) (r : result) (w' : world) :
  reach trace_file i f w r w' ->
  exists n : nat,
    exec_blocks (snd (fst r)) = (exec_blocks (system_status f) + n)%nat /\
    rand_calls w' = (rand_calls w + 2 * n)%nat.
Proof.
  induction 1 as
    [ trace_file i f w
    | trace_file i f w trace d p f1 r w' Hnth Hp Hlog Hr IH
    | trace_file i f w trace a d p lbl f1 r w' Hnth Hp Htag Hsvc Hr IH
    | trace_file i f w trace a d p r w' Hnth Hp Hh Hr IH
    | trace_file i f w trace d p f1 w1 child ct pi r w2 Hnth Hp Hfork Hcs
        Hr IH
    | trace_file i f w trace d p f1 w1 child ct pi rc w2 r w' Hnth Hp Hfork
        Hcs Hc IHc Hr IH
    | trace_file i f w trace d p f1 w1 Hnth Hp Hexec Hopen
    | trace_file i f w trace d p f1 w1 et r w2 Hnth Hp Hexec Hopen Hr IH ].
  - exists 0%nat. cbn. lia.
  - apply same_process_log_event in Hlog. destruct Hlog as (Hs & _).
    rewrite Hs in IH. exact IH.
  - apply same_process_service in Hsvc. destruct Hsvc as (Hs & _).
    rewrite Hs in IH. exact IH.
  - exact IH.
  - apply fork_clone_done in Hfork.
    destruct Hfork as (_ & Hw1 & Hs & _).
    destruct IH as (n & Hn & Hrand). exists n.
    destruct r as [[e s] t]. cbn in Hn |- *.
    rewrite exec_blocks_app, Hs, exec_blocks_app, Hn, Hrand, Hw1. cbn. lia.
  - apply fork_clone_done in Hfork.
    destruct Hfork as (_ & Hw1 & Hs & _).
    destruct IHc as (n & Hn & Hrand). destruct IH as (m & Hm & Hrand').
    exists (n + m)%nat.
    destruct rc as [[e s] t]. cbn in Hn, Hm, Hrand'.
    rewrite Hm, exec_blocks_app, Hs, exec_blocks_app, Hn, Hrand', Hrand, Hw1.
    cbn. lia.
  - pose proof (exec_replace_rand _ _ _ _ _ _ Hexec) as Hr.
    apply exec_replace_done in Hexec.
    destruct Hexec as (_ & _ & _ & Hs & _).
    exists 1%nat. cbn. rewrite Hs, exec_blocks_app, Hr. cbn. lia.
  - pose proof (exec_replace_rand _ _ _ _ _ _ Hexec) as Hr1.
    apply exec_replace_done in Hexec.
    destruct Hexec as (_ & _ & _ & Hs & _).
    destruct IH as (n & Hn & Hrand). exists (S n).
    destruct r as [[e s] t]. cbn in Hn |- *.
    rewrite exec_blocks_app, Hs, exec_blocks_app, Hn, Hrand, Hr1. cbn. lia.
Qed.

(** X4: the status log accounts for the two counters of the process.  At
    every point of a call the pid counter has advanced by the number of
    blocks written by FORK, and [rand] has been called twice for every
    block written by EXEC; CPU, SYSCALL, END_IO and marker lines touch
    neither counter. *)
Theorem status_log_accounts_for_counters (fuel : nat)
  (trace_file : list string) (time : Z) (pcb : PCB) (queue : list PCB)
  (w : world) (e : list entry) (s : list snapshot) (t : Z) (w' : world) :
  observed (simulate_trace fuel trace_file time pcb queue w)
  = Some ((e, s, t), w') ->
  next_pid w' = next_pid w + Z.of_nat (length (fork_pids s)) /\
  rand_calls w' = (rand_calls w + 2 * exec_blocks s)%nat.
Proof.
  intros H. apply run_reach in H.
  destruct (reach_fork_pids _ _ _ _ _ _ H) as (n & Hn & Hpid).
  destruct (reach_rand_calls _ _ _ _ _ _ H) as (m & Hm & Hrand).
  cbn in Hn, Hm. split.
  - rewrite Hn, consecutive_length. exact Hpid.
  - rewrite Hm. exact Hrand.
Qed.

(** ** The wait queue *)

(** X5: the wait queue of a call only ever receives copies of the PCB of
    the process that the call interprets, and a child starts with an empty
    queue.  So when the queue given to the call holds PCBs of the process
    itself only (it is empty in [main]), every status block shows a queue
    of PCBs of one process: the parent of the child in a FORK block, the
    process itself in an EXEC block.  No ancestor other than the parent is
    ever in the queue shown for a child. *)
Theorem wait_queue_of_one_process (fuel : nat) (trace_file : list string)
  (time : Z) (pcb : PCB) (queue : list PCB) (w : world) (e : list entry)
  (s : list snapshot) (t : Z) (w' : world) :
  Forall (fun q => PID q = PID pcb) queue ->
  observed (simulate_trace fuel trace_file time pcb queue w)
  = Some ((e, s, t), w') ->
  Forall queue_of_one_process s.
Proof.
  intros Hq H. apply run_reach in H.
  enough (G : forall trace_file i f w r w',
             reach trace_file i f w r w' ->
             Forall (fun q => PID q = PID (current f)) (wait_queue f) ->
             Forall queue_of_one_process (system_status f) ->
             Forall queue_of_one_process (snd (fst r))).
  { apply G in H; [exact H | exact Hq | constructor]. }
  clear. intros trace_file i f w r w'.
  induction 1 as
    [ trace_file i f w
    | trace_file i f w trace d p f1 r w' Hnth Hp Hlog Hr IH
    | trace_file i f w trace a d p lbl f1 r w' Hnth Hp Htag Hsvc Hr IH
    | trace_file i f w trace a d p r w' Hnth Hp Hh Hr IH
    | trace_file i f w trace d p f1 w1 child ct pi r w2 Hnth Hp Hfork Hcs
        Hr IH
    | trace_file i f w trace d p f1 w1 child ct pi rc w2 r w' Hnth Hp Hfork
        Hcs Hc IHc Hr IH
    | trace_file i f w trace d p f1 w1 Hnth Hp Hexec Hopen
    | trace_file i f w trace d p f1 w1 et r w2 Hnth Hp Hexec Hopen Hr IH ];
    intros Hq Hf.
  - exact Hf.
  - apply same_process_log_event in Hlog. destruct Hlog as (Hs & Hc & Hw).
    apply IH; [rewrite Hc, Hw | rewrite Hs]; assumption.
  - apply same_process_service in Hsvc. destruct Hsvc as (Hs & Hc & Hw).
    apply IH; [rewrite Hc, Hw | rewrite Hs]; assumption.
  - apply IH; assumption.
  - apply fork_clone_done in Hfork.
    destruct Hfork as (Hchild & _ & Hs & Hcur & Hw & _).
    assert (Hq1 : Forall (fun q => PID q = PID (current f))
                    (wait_queue f ++ [current f])).
    { apply Forall_app. split; [exact Hq|]. repeat constructor. }
    destruct r as [[e s] t]. cbn in IH |- *.
    apply Forall_app. split; [|apply IH; constructor].
    rewrite Hs. apply Forall_app. split; [exact Hf|].
    constructor; [|constructor]. unfold queue_of_one_process. cbn.
    subst child. cbn. exact Hq1.
  - apply fork_clone_done in Hfork.
    destruct Hfork as (Hchild & _ & Hs & Hcur & Hw & _).
    assert (Hq1 : Forall (fun q => PID q = PID (current f))
                    (wait_queue f ++ [current f])).
    { apply Forall_app. split; [exact Hq|]. repeat constructor. }
    destruct rc as [[e s] t]. cbn in IHc, IH |- *.
    apply IH; [cbn; rewrite Hcur, Hw; exact Hq1|].
    apply Forall_app. split; [|apply IHc; constructor].
    rewrite Hs. apply Forall_app. split; [exact Hf|].
    constructor; [|constructor]. unfold queue_of_one_process. cbn.
    subst child. cbn. exact Hq1.
  - apply exec_replace_done in Hexec.
    destruct Hexec as (_ & Hpid & _ & Hs & Hw & _).
    cbn. rewrite Hs. apply Forall_app. split; [exact Hf|].
    constructor; [|constructor]. unfold queue_of_one_process. cbn.
    rewrite Hpid. exact Hq.
  - apply exec_replace_done in Hexec.
    destruct Hexec as (_ & Hpid & _ & Hs & Hw & _).
    assert (Hx : Forall queue_of_one_process (system_status f1)).
    { rewrite Hs. apply Forall_app. split; [exact Hf|].
      constructor; [|constructor]. unfold queue_of_one_process. cbn.
      rewrite Hpid. exact Hq. }
    destruct r as [[e s] t]. cbn in IH |- *.
    apply Forall_app. split; [exact Hx|].
    apply IH; [|constructor]. cbn. rewrite Hw, Hpid. exact Hq.
Qed.

(** ** The pids shown by EXEC *)

Lemma exec_pids_known_incl (s : list snapshot) :
  forall known known',
    (forall z, In z known -> In z known') ->
    exec_pids_known known s -> exec_pids_known known' s.
Proof.
  induction s as [|x s IH]; intros known known' Hincl H; cbn in *; [exact I|].
  destruct (snap_trace x).
  - eapply IH; [|exact H]. intros z [Hz|Hz]; [left; exact Hz|right; auto].
  - destruct H as [Hin H]. split; [auto|]. eapply IH; eassumption.
Qed.

Lemma exec_pids_known_app (a b : list snapshot) :
  forall known,
    exec_pids_known known a ->
    exec_pids_known (fork_pids a ++ known) b ->
    exec_pids_known known (a ++ b).
Proof.
  induction a as [|x a IH]; intros known Ha Hb; cbn in *; [exact Hb|].
  destruct (snap_trace x).
  - apply IH; [exact Ha|].
    eapply exec_pids_known_incl; [|exact Hb].
    intros z Hz. cbn in Hz. apply in_or_app.
    destruct Hz as [Hz|Hz]; [right; left; exact Hz|].
    apply in_app_or in Hz. destruct Hz as [Hz|Hz]; [left|right; right]; auto.
  - destruct Ha as [Hin Ha]. split; [exact Hin|]. apply IH; assumption.
Qed.

Lemma reach_exec_pids (trace_file : list string) (i : nat) (f : frame)
  (w : world) (r : result) (w' : world) :
  reach trace_file i f w r w' ->
  forall known,
    exec_pids_known known (system_status f) ->
    In (PID (current f)) (fork_pids (system_status f) ++ known) ->
    exec_pids_known known (snd (fst r)).
Proof.
  induction 1 as
    [ trace_file i f w
    | trace_file i f w trace d p f1 r w' Hnth Hp Hlog Hr IH
    | trace_file i f w trace a d p lbl f1 r w' Hnth Hp Htag Hsvc Hr IH
    | trace_file i f w trace a d p r w' Hnth Hp Hh Hr IH
    | trace_file i f w trace d p f1 w1 child ct pi r w2 Hnth Hp Hfork Hcs
        Hr IH
    | trace_file i f w trace d p f1 w1 child ct pi rc w2 r w' Hnth Hp Hfork
        Hcs Hc IHc Hr IH
    | trace_file i f w trace d p f1 w1 Hnth Hp Hexec Hopen
    | trace_file i f w trace d p f1 w1 et r w2 Hnth Hp Hexec Hopen Hr IH ];
    intros known Hk Hin.
  - exact Hk.
  - apply same_process_log_event in Hlog. destruct Hlog as (Hs & Hcur & _).
    apply IH; rewrite Hs; [|rewrite Hcur]; assumption.
  - apply same_process_service in Hsvc. destruct Hsvc as (Hs & Hcur & _).
    apply IH; rewrite Hs; [|rewrite Hcur]; assumption.
  - apply IH; assumption.
  - apply fork_clone_done in Hfork.
    destruct Hfork as (Hchild & _ & Hs & Hcur & _).
    destruct r as [[e s] t]. cbn in IH |- *.
    apply exec_pids_known_app.
    + rewrite Hs. apply exec_pids_known_app; [exact Hk|]. cbn. exact I.
    + apply IH; [exact I|]. cbn.
      rewrite Hs, fork_pids_app. cbn.
      apply in_or_app. left. apply in_or_app. right. left. reflexivity.
  - apply fork_clone_done in Hfork.
    destruct Hfork as (Hchild & _ & Hs & Hcur & _).
    destruct rc as [[e s] t]. cbn in IHc, IH.
    assert (Hk1 : exec_pids_known known (system_status f1 ++ s)).
    { apply exec_pids_known_app.
      - rewrite Hs. apply exec_pids_known_app; [exact Hk|]. cbn. exact I.
      - apply IHc; [exact I|]. cbn.
        rewrite Hs, fork_pids_app. cbn.
        apply in_or_app. left. apply in_or_app. right. left. reflexivity. }
    apply IH; [exact Hk1|].
    rewrite Hcur, fork_pids_app, Hs, fork_pids_app.
    apply in_app_or in Hin. apply in_or_app.
    destruct Hin as [Hin|Hin]; [left|right; exact Hin].
    apply in_or_app. left. apply in_or_app. left. exact Hin.
  - apply exec_replace_done in Hexec.
    destruct Hexec as (_ & Hpid & _ & Hs & _).
    cbn. rewrite Hs. apply exec_pids_known_app; [exact Hk|].
    cbn. rewrite Hpid. auto.
  - apply exec_replace_done in Hexec.
    destruct Hexec as (_ & Hpid & _ & Hs & _).
    assert (Hk1 : exec_pids_known known (system_status f1)).
    { rewrite Hs. apply exec_pids_known_app; [exact Hk|].
      cbn. rewrite Hpid. auto. }
    destruct r as [[e s] t]. cbn in IH |- *.
    apply exec_pids_known_app; [exact Hk1|].
    apply IH; [exact I|]. cbn. rewrite Hpid, Hs, fork_pids_app.
    apply in_app_or in Hin. apply in_or_app.
    destruct Hin as [Hin|Hin]; [left|right; exact Hin].
    apply in_or_app. left. exact Hin.
Qed.

(** X6: EXEC never makes a process.  At every point of a call, every status
    block written by an EXEC shows the pid of the process that the call was
    given, or the pid of a child shown by a FORK block earlier in the
    status log. *)
Theorem exec_shows_a_known_pid (fuel : nat) (trace_file : list string)
  (time : Z) (pcb : PCB) (queue : list PCB) (w : world) (e : list entry)
  (s : list snapshot) (t : Z) (w' : world) :
  observed (simulate_trace fuel trace_file time pcb queue w)
  = Some ((e, s, t), w') ->
  exec_pids_known [PID pcb] s.
Proof.
  intros H. apply run_reach in H.
  apply (reach_exec_pids _ _ _ _ _ _ H [PID pcb]).
  - exact I.
  - left. reflexivity.
Qed.

(** ** What the scan of a FORK collects *)

Lemma subseq_nil_l {A : Type} (l : list A) : subseq [] l.
Proof.
  induction l as [|x l IH]; [apply subseq_nil | apply subseq_skip, IH].
Qed.

Lemma carve_collects (lines : list string) :
  forall j skip exec_flag parent_index child_trace child_trace' parent_index',
    carve lines j skip exec_flag parent_index child_trace
    = Done (child_trace', parent_index') ->
    exists more,
      child_trace' = child_trace ++ more /\
      subseq more lines /\
      forallb (fun l => negb (is_tag "IF_PARENT" l)) more = true.
Proof.
  induction lines as [|line rest IH];
    intros j skip exec_flag pi ct ct' pi' H; cbn [carve] in H.
  - injection H as <- <-. exists []. rewrite app_nil_r.
    split; [reflexivity|]. split; [apply subseq_nil | reflexivity].
  - unfold parse in H.
    destruct (parse_trace line) as [[[a d] p]|] eqn:Hp;
      cbn [raise_if_none bind] in H; [|discriminate H].
    assert (Hskip : forall j s e q c,
               carve rest j s e q c = Done (ct', pi') ->
               exists more,
                 ct' = c ++ more /\ subseq more (line :: rest) /\
                 forallb (fun l => negb (is_tag "IF_PARENT" l)) more = true).
    { intros j0 s e q c Hc. apply IH in Hc.
      destruct Hc as (more & Hm & Hsub & Hno).
      exists more. split; [exact Hm|]. split; [|exact Hno].
      apply subseq_skip, Hsub. }
    destruct (skip && String.eqb a "IF_CHILD"); [eapply Hskip; eassumption|].
    destruct (String.eqb a "IF_PARENT") eqn:Hpar.
    { destruct exec_flag; [|eapply Hskip; eassumption].
      injection H as <- <-. exists []. rewrite app_nil_r.
      split; [reflexivity|]. split; [apply subseq_nil_l | reflexivity]. }
    assert (Htake : forall j s e q,
               carve rest j s e q (ct ++ [line]) = Done (ct', pi') ->
               exists more,
                 ct' = ct ++ more /\ subseq more (line :: rest) /\
                 forallb (fun l => negb (is_tag "IF_PARENT" l)) more = true).
    { intros j0 s e q Hc. apply IH in Hc.
      destruct Hc as (more & Hm & Hsub & Hno).
      exists (line :: more). rewrite Hm, <- app_assoc.
      split; [reflexivity|]. split; [apply subseq_take, Hsub|].
      cbn [forallb]. unfold is_tag at 1. rewrite Hp, Hpar. exact Hno. }
    destruct (skip && String.eqb a "ENDIF"); [eapply Hskip; eassumption|].
    destruct (negb skip && String.eqb a "EXEC"); [eapply Htake; eassumption|].
    destruct skip; [eapply Hskip | eapply Htake]; eassumption.
Qed.

(** X7: the child trace that the scan of a FORK builds is made of lines
    that follow the FORK in the trace, each taken at most once and in the
    order of the trace, and no IF_PARENT line is among them. *)
Theorem child_trace_is_subsequence (trace_file : list string) (i : nat)
  (child_trace : list string) (parent_index : nat) :
  child_section trace_file i = Done (child_trace, parent_index) ->
  subseq child_trace (skipn (S i) trace_file) /\
  forallb (fun l => negb (is_tag "IF_PARENT" l)) child_trace = true.
Proof.
  unfold child_section. intros H. apply carve_collects in H.
  destruct H as (more & -> & Hsub & Hno). cbn. auto.
Qed.

Lemma carve_parent_index (lines : list string) :
  forall j skip exec_flag parent_index child_trace child_trace' parent_index',
    carve lines j skip exec_flag parent_index child_trace
    = Done (child_trace', parent_index') ->
    parent_index' = parent_index \/
    exists k l,
      parent_index' = (j + k)%nat /\ nth_error lines k = Some l /\
      is_tag "IF_PARENT" l = true.
Proof.
  induction lines as [|line rest IH];
    intros j skip exec_flag pi ct ct' pi' H; cbn [carve] in H.
  - injection H as _ <-. left. reflexivity.
  - unfold parse in H.
    destruct (parse_trace line) as [[[a d] p]|] eqn:Hp;
      cbn [raise_if_none bind] in H; [|discriminate H].
    assert (Hnext : forall s e c,
               carve rest (S j) s e pi c = Done (ct', pi') ->
               pi' = pi \/
               exists k l,
                 pi' = (j + k)%nat /\ nth_error (line :: rest) k = Some l /\
                 is_tag "IF_PARENT" l = true).
    { intros s e c Hc. apply IH in Hc.
      destruct Hc as [Hc|(k & l & Hk & Hl & Ht)]; [left; exact Hc|].
      right. exists (S k), l. repeat split; auto; lia. }
    assert (Hhere : is_tag "IF_PARENT" line = String.eqb a "IF_PARENT").
    { unfold is_tag. rewrite Hp. reflexivity. }
    destruct (skip && String.eqb a "IF_CHILD"); [eapply Hnext; eassumption|].
    destruct (String.eqb a "IF_PARENT").
    { right. destruct exec_flag.
      - injection H as _ <-. exists 0%nat, line.
        repeat split; auto; lia.
      - apply IH in H.
        destruct H as [H|(k & l & Hk & Hl & Ht)].
        + exists 0%nat, line. repeat split; auto; lia.
        + exists (S k), l. repeat split; auto; lia. }
    destruct (skip && String.eqb a "ENDIF"); [eapply Hnext; eassumption|].
    destruct (negb skip && String.eqb a "EXEC"); eapply Hnext; eassumption.
Qed.

(** X8: the index at which the parent resumes after a FORK is 0, when the
    scan has met no IF_PARENT, or else the index of an IF_PARENT line that
    follows the FORK: the parent then goes on with the line after that
    IF_PARENT. *)
Theorem resume_index_is_an_if_parent (trace_file : list string) (i : nat)
  (child_trace : list string) (parent_index : nat) :
  child_section trace_file i = Done (child_trace, parent_index) ->
  parent_index = 0%nat \/
  (i < parent_index)%nat /\
  exists l, nth_error trace_file parent_index = Some l /\
            is_tag "IF_PARENT" l = true.
Proof.
  unfold child_section. intros H. apply carve_parent_index in H.
  destruct H as [H|(k & l & Hk & Hl & Ht)]; [left; exact H|].
  right. split; [lia|]. exists l. split; [|exact Ht].
  rewrite nth_error_skipn in Hl. rewrite Hk. exact Hl.
Qed.

(** The scan passes over ordinary lines without a change of mode. *)
Lemma carve_ordinary (block rest : list string) (skip exec_flag : bool)
  (parent_index : nat) :
  forallb ordinary_line block = true ->
  forall j child_trace,
    carve (block ++ rest) j skip exec_flag parent_index child_trace =
    carve rest (j + length block) skip exec_flag parent_index
      (if skip then child_trace else child_trace ++ block).
Proof.
  induction block as [|line block IH]; intros Hall j ct.
  - cbn. rewrite Nat.add_0_r. destruct skip; [|rewrite app_nil_r]; reflexivity.
  - cbn [forallb] in Hall. apply andb_true_iff in Hall.
    destruct Hall as [Hline Hall]. specialize (IH Hall).
    cbn [app carve]. unfold parse. unfold ordinary_line in Hline.
    destruct (parse_trace line) as [[[a d] p]|]; [|discriminate Hline].
    repeat (apply andb_true_iff in Hline; destruct Hline as [Hline ?]).
    cbn [raise_if_none bind].
    repeat match goal with
           | E : negb _ = true |- _ => apply negb_true_iff in E; rewrite E
           end.
    rewrite !andb_false_r.
    rewrite IH. cbn [length]. replace (S j + length block)%nat
      with (j + S (length block))%nat by lia.
    destruct skip; [reflexivity|]. rewrite <- app_assoc. reflexivity.
Qed.

Lemma carve_if_child (line : string) (rest : list string) (j : nat)
  (exec_flag : bool) (parent_index : nat) (child_trace : list string) :
  is_tag "IF_CHILD" line = true ->
  carve (line :: rest) j true exec_flag parent_index child_trace =
  carve rest (S j) false exec_flag parent_index child_trace.
Proof.
  unfold is_tag. intros H. cbn [carve]. unfold parse.
  destruct (parse_trace line) as [[[a d] p]|]; [|discriminate H].
  apply String.eqb_eq in H. subst a. reflexivity.
Qed.

Lemma carve_if_parent (line : string) (rest : list string) (j : nat)
  (skip exec_flag : bool) (parent_index : nat) (child_trace : list string) :
  is_tag "IF_PARENT" line = true ->
  carve (line :: rest) j skip exec_flag parent_index child_trace =
  if exec_flag then Done (child_trace, j)
  else carve rest (S j) true exec_flag j child_trace.
Proof.
  unfold is_tag. intros H. cbn [carve]. unfold parse.
  destruct (parse_trace line) as [[[a d] p]|]; [|discriminate H].
  apply String.eqb_eq in H. subst a. cbn [raise_if_none bind].
  rewrite andb_false_r. reflexivity.
Qed.

Lemma carve_endif (line : string) (rest : list string) (j : nat)
  (exec_flag : bool) (parent_index : nat) (child_trace : list string) :
  is_tag "ENDIF" line = true ->
  carve (line :: rest) j true exec_flag parent_index child_trace =
  carve rest (S j) false exec_flag parent_index child_trace.
Proof.
  unfold is_tag. intros H. cbn [carve]. unfold parse.
  destruct (parse_trace line) as [[[a d] p]|]; [|discriminate H].
  apply String.eqb_eq in H. subst a. reflexivity.
Qed.

Lemma carve_exec (line : string) (rest : list string) (j : nat)
  (exec_flag : bool) (parent_index : nat) (child_trace : list string) :
  is_tag "EXEC" line = true ->
  carve (line :: rest) j false exec_flag parent_index child_trace =
  carve rest (S j) true true parent_index (child_trace ++ [line]).
Proof.
  unfold is_tag. intros H. cbn [carve]. unfold parse.
  destruct (parse_trace line) as [[[a d] p]|]; [|discriminate H].
  apply String.eqb_eq in H. subst a. reflexivity.
Qed.

(** X9: the conditional block after a FORK.  When the FORK is followed by
    an IF_CHILD line, a child body, an IF_PARENT line, a parent body, an
    ENDIF line and a tail, the bodies and the tail being made of ordinary
    lines, the child trace is the child body followed by the tail, and the
    parent resumes at the IF_PARENT line: the tail after the ENDIF is run
    by the child and by the parent. *)
Theorem conditional_block (before : list string)
  (fork_line if_child : string) (child_body : list string)
  (if_parent : string) (parent_body : list string) (endif : string)
  (tail : list string) :
  is_tag "IF_CHILD" if_child = true ->
  forallb ordinary_line child_body = true ->
  is_tag "IF_PARENT" if_parent = true ->
  forallb ordinary_line parent_body = true ->
  is_tag "ENDIF" endif = true ->
  forallb ordinary_line tail = true ->
  child_section
    (before ++ fork_line :: if_child :: child_body ++ if_parent ::
     parent_body ++ endif :: tail) (length before)
  = Done (child_body ++ tail, (length before + 2 + length child_body)%nat).
Proof.
  intros Hc Hbody Hp Hpbody He Htail.
  unfold child_section. rewrite skipn_middle.
  rewrite (carve_if_child _ _ _ _ _ _ Hc).
  rewrite (carve_ordinary _ _ _ _ _ Hbody).
  rewrite (carve_if_parent _ _ _ _ _ _ _ Hp).
  rewrite (carve_ordinary _ _ _ _ _ Hpbody).
  rewrite (carve_endif _ _ _ _ _ _ He).
  rewrite <- (app_nil_r tail) at 1.
  rewrite (carve_ordinary _ _ _ _ _ Htail).
  cbn [carve app]. do 2 f_equal. lia.
Qed.

(** X10: a child branch that ends with an EXEC.  When the FORK is followed
    by an IF_CHILD line, ordinary lines, an EXEC line and an IF_PARENT
    line, the child trace is the ordinary lines and the EXEC, and the
    parent resumes at the IF_PARENT: the scan stops there, and the lines
    after the IF_PARENT are not read, whatever they are. *)
Theorem child_branch_ends_at_exec (before : list string)
  (fork_line if_child : string) (child_body : list string)
  (exec_line if_parent : string) (rest : list string) :
  is_tag "IF_CHILD" if_child = true ->
  forallb ordinary_line child_body = true ->
  is_tag "EXEC" exec_line = true ->
  is_tag "IF_PARENT" if_parent = true ->
  child_section
    (before ++ fork_line :: if_child :: child_body ++ exec_line ::
     if_parent :: rest) (length before)
  = Done (child_body ++ [exec_line],
          (length before + 3 + length child_body)%nat).
Proof.
  intros Hc Hbody Hx Hp.
  unfold child_section. rewrite skipn_middle.
  rewrite (carve_if_child _ _ _ _ _ _ Hc).
  rewrite (carve_ordinary _ _ _ _ _ Hbody).
  rewrite (carve_exec _ _ _ _ _ _ Hx).
  rewrite (carve_if_parent _ _ _ _ _ _ _ Hp).
  cbn [app]. do 2 f_equal. lia.
Qed.

(** In skip mode, without an IF_CHILD or an ENDIF, nothing is collected. *)
Lemma carve_stays_skipping (lines : list string) :
  forallb (fun l => negb (is_tag "IF_CHILD" l) && negb (is_tag "ENDIF" l))
    lines = true ->
  forall j exec_flag parent_index child_trace child_trace' parent_index',
    carve lines j true exec_flag parent_index child_trace
    = Done (child_trace', parent_index') ->
    child_trace' = child_trace.
Proof.
  induction lines as [|line rest IH]; intros Hall j exec_flag pi ct ct' pi' H;
    cbn [carve] in H.
  - injection H as <- _. reflexivity.
  - cbn [forallb] in Hall. apply andb_true_iff in Hall.
    destruct Hall as [Hline Hall]. specialize (IH Hall).
    apply andb_true_iff in Hline. destruct Hline as [Hc He].
    apply negb_true_iff in Hc, He. unfold is_tag in Hc, He.
    unfold parse in H.
    destruct (parse_trace line) as [[[a d] p]|];
      cbn [raise_if_none bind] in H; [|discriminate H].
    rewrite Hc, He in H. cbn [andb negb] in H.
    destruct (String.eqb a "IF_PARENT").
    + destruct exec_flag; [|eapply IH; eassumption].
      injection H as <- _. reflexivity.
    + eapply IH; eassumption.
Qed.

(** X11: a FORK that is followed by no IF_CHILD and no ENDIF line has an
    empty child branch: the scan starts in skip mode and only those two
    lines end it. *)
Theorem no_marker_no_child_branch (trace_file : list string) (i : nat)
  (child_trace : list string) (parent_index : nat) :
  forallb (fun l => negb (is_tag "IF_CHILD" l) && negb (is_tag "ENDIF" l))
    (skipn (S i) trace_file) = true ->
  child_section trace_file i = Done (child_trace, parent_index) ->
  child_trace = [].
Proof.
  unfold child_section. intros Hall H.
  eapply carve_stays_skipping; eassumption.
Qed.

(** ** FORKs that come to an end *)

Lemma subseq_length {A : Type} (l1 l2 : list A) :
  subseq l1 l2 -> (length l1 <= length l2)%nat.
Proof.
  induction 1; cbn; lia.
Qed.

(** The child trace is not longer than the trace. *)
Lemma child_trace_length (trace_file : list string) (i : nat)
  (child_trace : list string) (parent_index : nat) :
  child_section trace_file i = Done (child_trace, parent_index) ->
  (length child_trace <= length trace_file)%nat.
Proof.
  unfold child_section. intros H. apply carve_collects in H.
  destruct H as (more & -> & Hsub & _). cbn.
  apply subseq_length in Hsub. rewrite length_skipn in Hsub. lia.
Qed.

(** X12: a trace without EXEC in which every FORK is followed by an
    IF_PARENT and has a child branch without FORK is interpreted to its
    end.  The parent resumes after the FORK, at the line that follows the
    IF_PARENT, so the index of the loop only grows; with more than twice
    as many iterations as the trace has lines the call is not still
    running. *)
Theorem forks_with_if_parent_settle (fuel : nat) (trace_file : list string)
  (time : Z) (pcb : PCB) (queue : list PCB) (w : world) :
  forallb (fun l => negb (is_tag "EXEC" l)) trace_file = true ->
  (forall i line child_trace parent_index,
      nth_error trace_file i = Some line ->
      is_tag "FORK" line = true ->
      child_section trace_file i = Done (child_trace, parent_index) ->
      (i < parent_index)%nat /\ forallb plain_line child_trace = true) ->
  (2 * length trace_file < fuel)%nat ->
  settled (simulate_trace fuel trace_file time pcb queue w).
Proof.
  intros Hexec Hfork Hfuel. unfold simulate_trace.
  enough (G : forall n i f w,
             (length trace_file + (length trace_file - i) < n)%nat ->
             settled (run n trace_file i f w)).
  { apply G. lia. }
  clear Hfuel w.
  induction n as [|n IH]; intros i f w Hn; [lia|].
  destruct (nth_error trace_file i) as [trace|] eqn:Hnth.
  2:{ cbn [run]. rewrite Hnth. exact I. }
  assert (Hi : (i < length trace_file)%nat).
  { apply nth_error_Some. rewrite Hnth. discriminate. }
  rewrite (run_step n _ _ _ _ _ Hnth). unfold parse.
  pose proof (forallb_nth_error _ _ _ _ Hexec Hnth) as Hline.
  cbn beta in Hline. apply negb_true_iff in Hline.
  specialize (Hfork i trace).
  unfold is_tag in Hline, Hfork.
  destruct (parse_trace trace) as [[[a d] p]|] eqn:Hp;
    cbn [raise_if_none bind]; [|exact I].
  rewrite Hline.
  destruct (String.eqb a "CPU").
  { destruct (log_event _ d f); cbn [bind]; try exact I. apply IH. lia. }
  destruct (String.eqb a "SYSCALL").
  { destruct (service _ d f); cbn [bind]; try exact I. apply IH. lia. }
  destruct (String.eqb a "END_IO").
  { destruct (service _ d f); cbn [bind]; try exact I. apply IH. lia. }
  destruct (String.eqb a "FORK"); [|apply IH; lia].
  destruct (fork_clone d f w) as [[[f1 w1] child]| |]; cbn [bind];
    try exact I.
  destruct (child_section trace_file i) as [[ct pi]| |] eqn:Hcs; cbn [bind];
    try exact I.
  destruct (Hfork ct pi Hnth eq_refl eq_refl) as [Hpi Hplain].
  assert (Hlen : (length ct <= length trace_file)%nat).
  { apply child_trace_length in Hcs. lia. }
  pose proof (run_plain_settles ct w1 Hplain n 0
                (init_frame (current_time f1) child [])) as Hchild.
  destruct (run n ct 0 _ w1) as [[[rc w2]|[rc w2]]| |]; cbn [call];
    try exact I.
  - destruct (free_memory child (memory w2)) as [c pool].
    apply IH. lia.
  - apply Hchild. lia.
Qed.

(** ** Lines that cannot be parsed *)

Lemma carve_parse_error (between : list string) (bad : string)
  (rest : list string) :
  forallb parsed_not_exec between = true ->
  parse_trace bad = None ->
  forall j skip parent_index child_trace,
    carve (between ++ bad :: rest) j skip false parent_index child_trace
    = Fatal ParseError.
Proof.
  intros Hall Hbad.
  induction between as [|line between IH]; intros j skip pi ct.
  - cbn [app carve]. unfold parse. rewrite Hbad. reflexivity.
  - cbn [forallb] in Hall. apply andb_true_iff in Hall.
    destruct Hall as [Hline Hall]. specialize (IH Hall).
    cbn [app carve]. unfold parse. unfold parsed_not_exec in Hline.
    destruct (parse_trace line) as [[[a d] p]|]; [|discriminate Hline].
    apply negb_true_iff in Hline. cbn [raise_if_none bind].
    rewrite Hline, andb_false_r.
    destruct (skip && String.eqb a "IF_CHILD"); [apply IH|].
    destruct (String.eqb a "IF_PARENT"); [apply IH|].
    destruct (skip && String.eqb a "ENDIF"); apply IH.
Qed.

(** X13: the scan of a FORK parses every line that follows the FORK, the
    lines of the parent too.  When no EXEC line comes first, a line after
    the FORK that the parser rejects makes the scan fail with [ParseError];
    the FORK then shows no log at all: the child branch is not started,
    even for the lines that come before the rejected line. *)
Theorem fork_scan_parses_every_line (before : list string)
  (fork_line : string) (between : list string) (bad : string)
  (rest : list string) (fuel : nat) (f : frame) (w : world) :
  is_tag "FORK" fork_line = true ->
  forallb parsed_not_exec between = true ->
  parse_trace bad = None ->
  child_section (before ++ fork_line :: between ++ bad :: rest)
    (length before) = Fatal ParseError /\
  observed
    (run (S fuel) (before ++ fork_line :: between ++ bad :: rest)
       (length before) f w) = None.
Proof.
  intros Hfork Hall Hbad.
  assert (Hcs : child_section (before ++ fork_line :: between ++ bad :: rest)
                  (length before) = Fatal ParseError).
  { unfold child_section. rewrite skipn_middle.
    apply carve_parse_error; assumption. }
  split; [exact Hcs|].
  rewrite (run_step fuel _ _ _ _ fork_line) by apply nth_error_middle.
  unfold is_tag in Hfork. unfold parse.
  destruct (parse_trace fork_line) as [[[a d] p]|]; [|discriminate Hfork].
  apply String.eqb_eq in Hfork. subst a.
  cbn [raise_if_none bind String.eqb Ascii.eqb Bool.eqb].
  destruct (fork_clone d f w) as [[[f1 w1] child]| |]; cbn [bind];
    try reflexivity.
  rewrite Hcs. reflexivity.
Qed.

(** ** A FORK inside a child branch *)



(** ** Durations that are not negative *)












(** Sane inputs make every run sane: the condition on the lines of a run
    asks less than the condition on all that the parser and the tables can
    hold. *)
Lemma sane_inputs_sane_run (trace_file : list string) :
  sane_inputs -> sane_run trace_file.
Proof.
  intros (Hparse & Hdelays & Hfiles) line _ a d p Hp.
  split; [|split].
  - intros _. eapply Hparse, Hp.
  - intros _ x Hx. rewrite Forall_forall in Hdelays.
    eapply Hdelays, nth_error_In, Hx.
  - intros _ sz Hsz. apply get_size_in in Hsz.
    destruct Hsz as (x & Hx & <-). rewrite Forall_forall in Hfiles.
    apply Hfiles, Hx.
Qed.


(** ** A FORK that is not followed by an IF_PARENT *)



End Interpreter.

(** * Scenario A *)

(** C1: on the trace ["CPU,5"; "SYSCALL,0"], with the vector table ["0x10"],
    the delay table [20], the context-save cost 10 of the interpreter and
    the start clock 0, the interpreter returns exactly the six entries of
    Scenario A, in order, an empty status log and the final clock 38,
    whatever the PCB, the wait queue and the state of the process are and
    for every fuel of at least three iterations. *)
Theorem scenario_A :
  forall (n : nat) (pcb : PCB) (queue : list PCB) (w : world),
    simulate_trace parse_trace_spec no_files rand_zero ["0x10"] [20] []
      (3 + n) ["CPU,5"; "SYSCALL,0"] 0 pcb queue w
    = Done (Returned ((scenario_A_log, [], 38), w)).
Proof.
  intros n pcb queue w. reflexivity.
Qed.

(** The text that [write_output] receives for Scenario A. *)
Lemma scenario_A_text :
  render_execution scenario_A_log =
  "0, 5, CPU Burst" +++ String (ascii_of_nat 10)
  ("5, 1, switch to kernel mode" +++ String (ascii_of_nat 10)
  ("6, 10, context saved" +++ String (ascii_of_nat 10)
  ("16, 1, find vector 0 in memory position 0x10" +++ String (ascii_of_nat 10)
  ("17, 20, SYSCALL ISR" +++ String (ascii_of_nat 10)
  ("37, 1, IRET" +++ String (ascii_of_nat 10) ""))))).
Proof. reflexivity. Qed.

(** * EXEC *)

(** The EXEC of [big], whose trace is [CPU,7]: the lines after the EXEC do
    not matter, and the branch returns the nine entries and the status
    block of the EXEC followed by the CPU burst of the new program, at the
    clock 30, with the final clock 37. *)
Lemma exec_is_terminal_witness :
  run parse_trace_spec big_program_files rand_zero sample_vectors [20]
    [mkFile "big" 1] 5 (["CPU,1"] ++ "EXEC,big" :: ["CPU,2"; "CPU,3"])
    (length ["CPU,1"]) (init_frame 0 sample_init []) sample_world =
  run parse_trace_spec big_program_files rand_zero sample_vectors [20]
    [mkFile "big" 1] 5 (["CPU,1"] ++ "EXEC,big" :: [])
    (length ["CPU,1"]) (init_frame 0 sample_init []) sample_world /\
  run parse_trace_spec big_program_files rand_zero sample_vectors [20]
    [mkFile "big" 1] 5 (["CPU,1"] ++ "EXEC,big" :: ["CPU,2"; "CPU,3"])
    (length ["CPU,1"]) (init_frame 0 sample_init []) sample_world =
  Done (Returned
          ((execution exec_big_frame ++ [mkEntry 30 7 "CPU Burst"],
            system_status exec_big_frame ++ [], 37),
           exec_big_world)).
Proof.
  split.
  - exact (proj1 (exec_is_terminal parse_trace_spec big_program_files
                    rand_zero sample_vectors [20] [mkFile "big" 1] 5
                    ["CPU,1"] ["CPU,2"; "CPU,3"] [] "EXEC,big" 0 "big"
                    (init_frame 0 sample_init []) sample_world eq_refl)).
  - exact (proj2 (exec_is_terminal parse_trace_spec big_program_files
                    rand_zero sample_vectors [20] [mkFile "big" 1] 4
                    ["CPU,1"] ["CPU,2"; "CPU,3"] [] "EXEC,big" 0 "big"
                    (init_frame 0 sample_init []) sample_world eq_refl)
             exec_big_frame exec_big_world eq_refl).
Defined.

(** C4: an EXEC of the program [big], of size 100, in a pool whose largest
    partition has capacity 40.  The allocation fails and the message is
    written to [std::cerr]; the interpreter then goes on as after a
    successful allocation: it logs the marking of the partition and the
    update of the PCB, opens the trace of [big] and interprets it, so that
    the CPU burst of the new program is in the execution log. *)
Theorem exec_goes_on_after_failed_allocation :
  fst (fst (allocate_memory (mkPCB 0 (-1) "big" 100 (-1))
              (snd (free_memory sample_init (memory sample_world)))))
  = false /\
  exists e s w',
    main parse_trace_spec big_program_files rand_zero sample_vectors []
      [mkFile "big" 100] 5 sample_pool ["EXEC,big"; "CPU,9"]
    = Some (Done (Returned ((e, s, 1522), w'))) /\
    cerr w' = ["ERROR! Memory allocation failed for big"] /\
    In (mkEntry 1512 1 "marking partition as occupied") e /\
    In (mkEntry 1515 7 "CPU Burst") e.
Proof.
  split; [reflexivity|].
  do 3 eexists. split; [vm_compute; reflexivity|].
  split; [reflexivity|].
  split; cbn; tauto.
Qed.

(** * Tags without a branch *)

(** The tag FOO: with the parser of the specification the call is left by
    the exception, at the top level and in a child branch alike, and no
    status log is returned; with a parser that returns the tag the line is
    passed over and the status log stays empty. *)
Lemma unknown_tag_counterexample :
  simulate_trace parse_trace_spec no_files rand_zero sample_vectors [20] []
    5 ["FOO,1"; "CPU,5"] 0 sample_init [] sample_world
  = Fatal ParseError /\
  simulate_trace parse_trace_spec no_files rand_zero sample_vectors [20] []
    9 ["FORK,1"; "IF_CHILD"; "FOO,1"; "IF_PARENT"; "ENDIF"; "CPU,5"] 0
    sample_init [] sample_world
  = Fatal ParseError /\
  simulate_trace parse_trace_any no_files rand_zero sample_vectors [20] []
    5 ["FOO,1"; "CPU,5"] 0 sample_init [] sample_world
  = Done (Returned (([mkEntry 0 5 "CPU Burst"], [], 5), sample_world)).
Proof.
  repeat split; reflexivity.
Qed.

(** The line [FOO,1] is passed over when the parser returns its tag. *)
Lemma unknown_tag_is_not_recorded_witness :
  known_tag "FOO" = false /\
  run parse_trace_any no_files rand_zero sample_vectors [20] [] 5
    ["FOO,1"; "CPU,5"] 0 (init_frame 0 sample_init []) sample_world =
  run parse_trace_any no_files rand_zero sample_vectors [20] [] 4
    ["FOO,1"; "CPU,5"] 1 (init_frame 0 sample_init []) sample_world.
Proof.
  split; [reflexivity|].
  exact (unknown_tag_is_not_recorded parse_trace_any no_files rand_zero
           sample_vectors [20] [] 4 ["FOO,1"; "CPU,5"] 0
           (init_frame 0 sample_init []) sample_world "FOO,1" eq_refl
           eq_refl).
Defined.

(** * The scan of the FORK branch *)

(** The line [CPU,4], which follows an ENDIF met in skip mode, is collected
    into the child trace; it would not be if the ENDIF left the scan as it
    was. *)
Lemma endif_counterexample :
  child_section parse_trace_spec
    ["FORK,3"; "IF_CHILD"; "CPU,2"; "IF_PARENT"; "CPU,3"; "ENDIF"; "CPU,4"] 0
  = Done (["CPU,2"; "CPU,4"], 3%nat) /\
  carve parse_trace_spec ["ENDIF"; "CPU,4"] 5 true false 3 ["CPU,2"]
  <> carve parse_trace_spec ["CPU,4"] 6 true false 3 ["CPU,2"].
Proof.
  split; [reflexivity|]. cbv. discriminate.
Qed.

(** The same ENDIF, at index 5 of that trace. *)
Lemma endif_ends_skip_mode_witness :
  is_tag parse_trace_spec "ENDIF" "ENDIF" = true /\
  carve parse_trace_spec ("ENDIF" :: ["CPU,4"]) 5 true false 3 ["CPU,2"] =
  carve parse_trace_spec ["CPU,4"] 6 false false 3 ["CPU,2"].
Proof.
  split; [reflexivity|].
  exact (proj1 (endif_ends_skip_mode parse_trace_spec "ENDIF" ["CPU,4"] 5
                  false 3 ["CPU,2"] eq_refl)).
Defined.

(** * Partitions and pids *)

(** Scenario B, run by [main] on the sample pool. *)
Lemma scenario_B :
  main parse_trace_spec no_files rand_zero sample_vectors [] [] 9
    sample_pool scenario_B_trace
  = Some (Done (Returned
                  ((scenario_B_log, scenario_B_status, 18),
                   mkWorld 2 sample_pool 0 []))).
Proof. reflexivity. Qed.

(** In Scenario B the status block of the FORK shows the child, of pid 1,
    and its parent, of pid 0, in the wait queue: both hold partition 6. *)
Lemma partition_exclusivity_counterexample :
  exists w' child parent,
    main parse_trace_spec no_files rand_zero sample_vectors [] [] 9
      sample_pool scenario_B_trace
    = Some (Done (Returned ((scenario_B_log, scenario_B_status, 18), w'))) /\
    In (mkSnapshot 16 (FORK_desc 3) child [parent]) scenario_B_status /\
    PID child <> PID parent /\
    partition_number child = partition_number parent /\
    partition_number child <> NO_PARTITION.
Proof.
  exists (mkWorld 2 sample_pool 0 []), (mkPCB 1 0 "init" 1 6), sample_init.
  split; [reflexivity|].
  split; [left; reflexivity|].
  cbn. unfold NO_PARTITION. repeat split; lia.
Qed.

(** The status log of Scenario B. *)
Lemma fork_child_shares_partition_witness :
  Forall shares_partition scenario_B_status.
Proof.
  exact (fork_child_shares_partition parse_trace_spec no_files rand_zero
           sample_vectors [] [] 9 scenario_B_trace 0 sample_init []
           sample_world scenario_B_log scenario_B_status 18
           (mkWorld 2 sample_pool 0 []) eq_refl).
Defined.


(** * The clock *)

(** The parser of the specification returns no negative operand. *)
Lemma parse_numeric_nonneg (field : string) (n : Z) :
  parse_numeric field = Some n -> 0 <= n.
Proof.
  unfold parse_numeric.
  destruct (NilZero.uint_of_string field) as [u|]; [|discriminate].
  destruct (in_int (Z.of_uint u)); [|discriminate].
  intros H. injection H as <-. unfold Z.of_uint. apply N2Z.is_nonneg.
Qed.

Lemma parse_trace_spec_nonneg (trace a p : string) (d : Z) :
  parse_trace_spec trace = Some (a, d, p) -> 0 <= d.
Proof.
  unfold parse_trace_spec.
  destruct (split_comma trace) as [tag operand].
  destruct (known_tag tag); [|discriminate].
  destruct operand as [field|].
  - destruct (parse_numeric field) as [n|] eqn:Hn.
    + intros H. injection H as _ <- _. eapply parse_numeric_nonneg, Hn.
    + destruct (String.eqb tag "EXEC"); [|discriminate].
      intros H. injection H as _ <- _. lia.
  - intros H. injection H as _ <- _. lia.
Qed.


(** With a parser that reads the operand -5 on a line, and with a delay
    table whose second delay is negative, the inputs are not sane as a
    whole. *)
Lemma signed_inputs_not_sane : ~ sane_inputs parse_trace_signed [20; -3] [].
Proof.
  intros (Hparse & _). specialize (Hparse "CPU,-5" "CPU" (-5) "" eq_refl).
  lia.
Qed.



(** * Operands outside the tables *)

(** The operand 2 is an index of the vector table, not of the delay table:
    the prologue passes and the delay table is read past its end; the
    outcome is not the error [OutOfRangeVector]. *)
Lemma delay_table_counterexample :
  in_table [20] 2 = false /\
  in_table sample_vectors 2 = true /\
  simulate_trace parse_trace_spec no_files rand_zero sample_vectors [20] []
    5 ["SYSCALL,2"] 0 sample_init [] sample_world
  = Undefined /\
  simulate_trace parse_trace_spec no_files rand_zero sample_vectors [20] []
    5 ["SYSCALL,2"] 0 sample_init [] sample_world
  <> Fatal OutOfRangeVector.
Proof.
  repeat split; try reflexivity. cbv. discriminate.
Qed.

(** The operand 2 with one vector and three delays: it is an index of the
    delay table and not of the vector table, and the prologue raises its
    error.  The operand 2 with four vectors and one delay: the prologue
    passes and the read of the delay table has no defined outcome. *)
Lemma operand_outside_delay_table_witness :
  (in_table ["0x10"] 2 = false /\ in_table [20; 30; 40] 2 = true /\
   run parse_trace_spec no_files rand_zero ["0x10"] [20; 30; 40] [] 5
     ["SYSCALL,2"] 0 (init_frame 0 sample_init []) sample_world
   = Fatal OutOfRangeVector) /\
  (in_table sample_vectors 2 = true /\ in_table [20] 2 = false /\
   run parse_trace_spec no_files rand_zero sample_vectors [20] [] 5
     ["END_IO,2"] 0 (init_frame 0 sample_init []) sample_world
   = Undefined).
Proof.
  split.
  - split; [reflexivity|]. split; [reflexivity|].
    exact (proj1
             (operand_outside_delay_table parse_trace_spec no_files
                rand_zero ["0x10"] [20; 30; 40] [] 4 ["SYSCALL,2"] 0
                (init_frame 0 sample_init []) sample_world "SYSCALL,2" 2
                eq_refl (or_introl eq_refl)
                (ex_intro _ "SYSCALL" (ex_intro _ "" eq_refl)))
             eq_refl).
  - split; [reflexivity|]. split; [reflexivity|].
    exact (proj2
             (operand_outside_delay_table parse_trace_spec no_files
                rand_zero sample_vectors [20] [] 4 ["END_IO,2"] 0
                (init_frame 0 sample_init []) sample_world "END_IO,2" 2
                eq_refl (or_intror eq_refl)
                (ex_intro _ "END_IO" (ex_intro _ "" eq_refl)))
             eq_refl eq_refl).
Defined.

(** * A FORK that is not followed by an IF_PARENT *)



(** * Further properties, on the sample configurations *)

(** Scenario A has no FORK and no EXEC: three iterations end it. *)
Lemma plain_trace_settles_witness :
  forallb (plain_line parse_trace_spec) ["CPU,5"; "SYSCALL,0"] = true /\
  settled
    (simulate_trace parse_trace_spec no_files rand_zero ["0x10"] [20] [] 3
       ["CPU,5"; "SYSCALL,0"] 0 sample_init [] sample_world).
Proof.
  split; [reflexivity|].
  refine (plain_trace_settles parse_trace_spec no_files rand_zero ["0x10"]
            [20] [] 3 ["CPU,5"; "SYSCALL,0"] 0 sample_init [] sample_world
            eq_refl _).
  cbn. lia.
Defined.

(** Scenario A leaves the status log empty and the process state as it
    was. *)
Lemma plain_trace_keeps_state_witness :
  forallb (plain_line parse_trace_spec) ["CPU,5"; "SYSCALL,0"] = true /\
  (@nil snapshot = [] /\ sample_world = sample_world).
Proof.
  split; [reflexivity|].
  exact (plain_trace_keeps_state parse_trace_spec no_files rand_zero
           ["0x10"] [20] [] 3 ["CPU,5"; "SYSCALL,0"] 0 sample_init []
           sample_world scenario_A_log [] 38 sample_world eq_refl eq_refl).
Defined.


(** Scenario B: one FORK block, no EXEC block; the pid counter goes from 1
    to 2 and [rand] is not called. *)
Lemma status_log_accounts_for_counters_witness :
  next_pid (mkWorld 2 sample_pool 0 []) =
    next_pid sample_world + Z.of_nat (length (fork_pids scenario_B_status)) /\
  rand_calls (mkWorld 2 sample_pool 0 []) =
    (rand_calls sample_world + 2 * exec_blocks scenario_B_status)%nat.
Proof.
  exact (status_log_accounts_for_counters parse_trace_spec no_files
           rand_zero sample_vectors [] [] 9 scenario_B_trace 0 sample_init
           [] sample_world scenario_B_log scenario_B_status 18
           (mkWorld 2 sample_pool 0 []) eq_refl).
Defined.

(** Scenario B: the queue shown with the child holds its parent only. *)
Lemma wait_queue_of_one_process_witness :
  Forall queue_of_one_process scenario_B_status.
Proof.
  exact (wait_queue_of_one_process parse_trace_spec no_files rand_zero
           sample_vectors [] [] 9 scenario_B_trace 0 sample_init []
           sample_world scenario_B_log scenario_B_status 18
           (mkWorld 2 sample_pool 0 []) (Forall_nil _) eq_refl).
Defined.

(** A child that EXECs, then the parent that EXECs: the two EXEC blocks
    show the pid of the child, forked before, and the pid of [init]. *)
Lemma exec_shows_a_known_pid_witness :
  match
    observed
      (simulate_trace parse_trace_spec no_files rand_zero sample_vectors []
         [mkFile "prog" 1] 9 fork_after_exec_trace 0 sample_init []
         sample_world)
  with
  | Some ((_, s, _), _) =>
      exec_pids_known [PID sample_init] s /\ exec_blocks s = 2%nat
  | None => False
  end.
Proof.
  destruct
    (observed
       (simulate_trace parse_trace_spec no_files rand_zero sample_vectors []
          [mkFile "prog" 1] 9 fork_after_exec_trace 0 sample_init []
          sample_world))
    as [[[[e s] t] w']|] eqn:H.
  - split.
    + exact (exec_shows_a_known_pid parse_trace_spec no_files rand_zero
               sample_vectors [] [mkFile "prog" 1] 9 fork_after_exec_trace 0
               sample_init [] sample_world e s t w' H).
    + vm_compute in H. injection H as _ <- _ _. reflexivity.
  - vm_compute in H. discriminate H.
Defined.

(** The child trace [CPU,2; CPU,4] of a FORK with a tail after the
    ENDIF. *)
Lemma child_trace_is_subsequence_witness :
  subseq ["CPU,2"; "CPU,4"]
    (skipn 1
       ["FORK,3"; "IF_CHILD"; "CPU,2"; "IF_PARENT"; "CPU,3"; "ENDIF";
        "CPU,4"]) /\
  forallb (fun l => negb (is_tag parse_trace_spec "IF_PARENT" l))
    ["CPU,2"; "CPU,4"] = true.
Proof.
  exact (child_trace_is_subsequence parse_trace_spec
           ["FORK,3"; "IF_CHILD"; "CPU,2"; "IF_PARENT"; "CPU,3"; "ENDIF";
            "CPU,4"] 0 ["CPU,2"; "CPU,4"] 3 eq_refl).
Defined.

(** In Scenario B the parent resumes at index 3, the IF_PARENT line. *)
Lemma resume_index_is_an_if_parent_witness :
  3%nat = 0%nat \/
  (0 < 3)%nat /\
  exists l, nth_error scenario_B_trace 3 = Some l /\
            is_tag parse_trace_spec "IF_PARENT" l = true.
Proof.
  exact (resume_index_is_an_if_parent parse_trace_spec scenario_B_trace 0
           ["CPU,2"] 3 eq_refl).
Defined.

(** A block with a parent body and a tail, after a CPU line. *)
Lemma conditional_block_witness :
  child_section parse_trace_spec
    (["CPU,1"] ++ "FORK,3" :: "IF_CHILD" :: ["CPU,2"] ++ "IF_PARENT" ::
     ["CPU,3"] ++ "ENDIF" :: ["CPU,4"]) (length ["CPU,1"])
  = Done (["CPU,2"] ++ ["CPU,4"],
          (length ["CPU,1"] + 2 + length ["CPU,2"])%nat).
Proof.
  exact (conditional_block parse_trace_spec ["CPU,1"] "FORK,3" "IF_CHILD"
           ["CPU,2"] "IF_PARENT" ["CPU,3"] "ENDIF" ["CPU,4"]
           eq_refl eq_refl eq_refl eq_refl eq_refl eq_refl).
Defined.

(** A child branch that ends with an EXEC; the line after the IF_PARENT is
    one that the parser rejects. *)
Lemma child_branch_ends_at_exec_witness :
  child_section parse_trace_spec
    ([] ++ "FORK,1" :: "IF_CHILD" :: ["CPU,2"] ++ "EXEC,prog" ::
     "IF_PARENT" :: ["FOO,1"; "ENDIF"]) (length (@nil string))
  = Done (["CPU,2"] ++ ["EXEC,prog"],
          (length (@nil string) + 3 + length ["CPU,2"])%nat).
Proof.
  exact (child_branch_ends_at_exec parse_trace_spec [] "FORK,1" "IF_CHILD"
           ["CPU,2"] "EXEC,prog" "IF_PARENT" ["FOO,1"; "ENDIF"]
           eq_refl eq_refl eq_refl eq_refl).
Defined.

(** A FORK followed by an IF_PARENT only: the child branch is empty. *)
Lemma no_marker_no_child_branch_witness :
  child_section parse_trace_spec ["FORK,1"; "CPU,2"; "IF_PARENT"; "CPU,3"] 0
  = Done ([], 2%nat) /\ @nil string = [].
Proof.
  split; [reflexivity|].
  exact (no_marker_no_child_branch parse_trace_spec
           ["FORK,1"; "CPU,2"; "IF_PARENT"; "CPU,3"] 0 [] 2 eq_refl eq_refl).
Defined.

(** Scenario B has one FORK, followed by an IF_PARENT, with the child
    branch [CPU,2]: eleven iterations end it. *)
Lemma forks_with_if_parent_settle_witness :
  settled
    (simulate_trace parse_trace_spec no_files rand_zero sample_vectors [] []
       11 scenario_B_trace 0 sample_init [] sample_world).
Proof.
  refine (forks_with_if_parent_settle parse_trace_spec no_files rand_zero
            sample_vectors [] [] 11 scenario_B_trace 0 sample_init []
            sample_world eq_refl _ _).
  - intros i line child_trace parent_index Hnth Htag Hcs.
    destruct i as [|i].
    { vm_compute in Hcs. injection Hcs as <- <-.
      split; [lia | reflexivity]. }
    do 4 (destruct i as [|i];
          [cbn in Hnth; injection Hnth as <-; vm_compute in Htag;
           discriminate Htag|]).
    destruct i; discriminate Hnth.
  - cbn. lia.
Defined.

(** A line that the parser rejects, after the ENDIF of the block: the FORK
    shows nothing. *)
Lemma fork_scan_parses_every_line_witness :
  child_section parse_trace_spec
    ([] ++ "FORK,1" :: ["IF_CHILD"; "CPU,2"; "IF_PARENT"; "ENDIF"] ++
     "FOO,1" :: []) (length (@nil string))
  = Fatal ParseError /\
  observed
    (run parse_trace_spec no_files rand_zero sample_vectors [] [] 5
       ([] ++ "FORK,1" :: ["IF_CHILD"; "CPU,2"; "IF_PARENT"; "ENDIF"] ++
        "FOO,1" :: []) (length (@nil string))
       (init_frame 0 sample_init []) sample_world)
  = None.
Proof.
  exact (fork_scan_parses_every_line parse_trace_spec no_files rand_zero
           sample_vectors [] [] [] "FORK,1"
           ["IF_CHILD"; "CPU,2"; "IF_PARENT"; "ENDIF"] "FOO,1" [] 4
           (init_frame 0 sample_init []) sample_world
           eq_refl eq_refl eq_refl).
Defined.

